(** * TLE acquisition and ingestion pipeline

    A shallow embedding of [backend/TLE_Fetch.py] (session manager, batch
    fetcher, partitioner, batch loop) and of [backend/data_input.py]
    (epoch conversion, per-pair derivation, chunked insertion), with the
    properties of the pipeline stated and proved over the embedding.

    Conventions.
    - Python [str] values are [string]s whose characters are read as the code
      points U+0000 .. U+00FF.
    - Python floats that carry times are binary64 numbers (primitive
      [float]s), and the operations on them are the IEEE 754 operations.
      The coordinates that the propagator returns, which are only rounded
      and stored, are rationals ([Q]).
    - Code that talks to the outside (HTTP, the propagator, the store)
      threads an explicit state and is parameterised by an oracle for the
      outside world.
    - Output to the terminal ([print], [tqdm]) is left out. *)

From Stdlib Require Import ZArith QArith Qround Lqa Floats Uint63 String Ascii List Lia.
From stdpp Require Import gmap strings list.

Open Scope Z_scope.

(** ** Python string primitives *)

Module PyStr.

Open Scope string_scope.

(** [str.isspace] on one character (code points below U+0100). *)
Definition isspace (c : ascii) : bool :=
  let n := Z.of_nat (nat_of_ascii c) in
  (((9 <=? n) && (n <=? 13)) || ((28 <=? n) && (n <=? 32))
   || (n =? 133) || (n =? 160))%Z.

(** [str.isdigit] as the regex class [\d] sees it below U+0100. *)
Definition isdigit (c : ascii) : bool :=
  let n := Z.of_nat (nat_of_ascii c) in ((48 <=? n) && (n <=? 57))%Z.

Fixpoint lstrip (s : string) : string :=
  match s with
  | EmptyString => EmptyString
  | String c s' => if isspace c then lstrip s' else s
  end.

Fixpoint rstrip (s : string) : string :=
  match s with
  | EmptyString => EmptyString
  | String c s' =>
      match rstrip s' with
      | EmptyString => if isspace c then EmptyString else String c EmptyString
      | r => String c r
      end
  end.

(** [s.strip()] *)
Definition strip (s : string) : string := lstrip (rstrip s).

(** [s.startswith(p)] *)
Fixpoint startswith (p s : string) : bool :=
  match p, s with
  | EmptyString, _ => true
  | String a p', String b s' => if Ascii.eqb a b then startswith p' s' else false
  | String _ _, EmptyString => false
  end.

(** [p in s] *)
Fixpoint contains (p s : string) : bool :=
  startswith p s ||
  match s with
  | EmptyString => false
  | String _ s' => contains p s'
  end.

(** [s.split(sep)] for a one-character separator: empty fields are kept. *)
Fixpoint split_on (sep : ascii) (s : string) : list string :=
  match s with
  | EmptyString => [EmptyString]
  | String c s' =>
      if Ascii.eqb c sep then EmptyString :: split_on sep s'
      else match split_on sep s' with
           | t :: r => String c t :: r
           | [] => [String c EmptyString]
           end
  end.

(** [s.split()]: fields are maximal runs of non-space characters.  The
    helper returns the field that starts at the head of [s], if any, and
    the fields after it. *)
Fixpoint split_go (s : string) : option string * list string :=
  match s with
  | EmptyString => (None, [])
  | String c s' =>
      let '(cur, rest) := split_go s' in
      if isspace c
      then (None, match cur with Some t => t :: rest | None => rest end)
      else (Some (String c (default EmptyString cur)), rest)
  end.

Definition split (s : string) : list string :=
  let '(cur, rest) := split_go s in
  match cur with Some t => t :: rest | None => rest end.

(** [s[:n]] *)
Fixpoint prefix (n : nat) (s : string) : string :=
  match n, s with
  | S n', String c s' => String c (prefix n' s')
  | _, _ => EmptyString
  end.

(** [s[a:a+n]] *)
Definition slice (a n : nat) (s : string) : string := String.substring a n s.

(** [sep.join(l)] *)
Fixpoint join (sep : string) (l : list string) : string :=
  match l with
  | [] => EmptyString
  | [x] => x
  | x :: r => x +:+ sep +:+ join sep r
  end.

(** The line boundaries of [str.splitlines] below U+0100, apart from the
    two-character boundary CR LF, which [splitlines] handles itself. *)
Definition islinebreak (c : ascii) : bool :=
  let n := Z.of_nat (nat_of_ascii c) in
  (((10 <=? n) && (n <=? 13)) || ((28 <=? n) && (n <=? 30)) || (n =? 133))%Z.

(** [s.splitlines()]: every line break ends a line, CR LF counts once, and
    a last line without line break is kept unless it is empty. *)
Fixpoint splitlines (s : string) : list string :=
  match s with
  | EmptyString => []
  | String c s' =>
      if islinebreak c then
        match s' with
        | String d s'' =>
            if Ascii.eqb c "013"%char && Ascii.eqb d "010"%char
            then EmptyString :: splitlines s''
            else EmptyString :: splitlines s'
        | EmptyString => [EmptyString]
        end
      else match splitlines s' with
           | t :: r => String c t :: r
           | [] => [String c EmptyString]
           end
  end.

(** [int(s)] for a string of decimal digits. *)
Definition digit_val (c : ascii) : Z := Z.of_nat (nat_of_ascii c) - 48.

Fixpoint int_digits_from (acc : Z) (s : string) : Z :=
  match s with
  | EmptyString => acc
  | String c s' => int_digits_from (10 * acc + digit_val c) s'
  end.

Definition int_of_digits (s : string) : Z := int_digits_from 0 s.

Fixpoint all_digits (s : string) : bool :=
  match s with
  | EmptyString => true
  | String c s' => isdigit c && all_digits s'
  end.

End PyStr.

(** ** Python list slicing in steps *)

Module PyList.

(** [[l[i:i+size] for i in range(0, len(l), size)]] for [size >= 1]. *)
Fixpoint chunks_fuel {A} (fuel size : nat) (l : list A) : list (list A) :=
  match fuel, l with
  | S f, _ :: _ => take size l :: chunks_fuel f size (drop size l)
  | _, _ => []
  end.

Definition chunks {A} (size : nat) (l : list A) : list (list A) :=
  chunks_fuel (length l) size l.

End PyList.

(** ** Outcomes of effectful code

    A Python call returns, raises, or ends the process ([sys.exit]). *)

Inductive exn : Type :=
| ConnectionError        (* requests.exceptions.ConnectionError *)
| Timeout                (* requests.exceptions.Timeout *)
| RequestException       (* any other requests.exceptions.RequestException *)
| IndexError
| NameError
| ValueError
| OSError.               (* FileNotFoundError and the other errors of [open] *)

Inductive outcome (A : Type) : Type :=
| Ret (a : A)
| Raise (e : exn)
| Exit (code : Z).
Arguments Ret {A} a.
Arguments Raise {A} e.
Arguments Exit {A} code.

(** ** The format of line 1

    The specification names one rule for the catalog number: a fixed range
    of characters of line 1.  In the two-line format these are columns 3 to
    7, after the line number and a space and before the classification
    letter.  [spec_fixed_range_id] follows the specification's words; the two
    extraction rules of the code are [TLE_Fetch.extract_norad_id] and
    [data_input.norad_id_of_line1]. *)

Module TLEFormat.

Import PyStr.
Open Scope string_scope.

Definition spec_fixed_range_id (line1 : string) : string := slice 2 5 line1.

(** A line 1 whose catalog number is written with five decimal digits: the
    marker, five decimal digits in columns 3 to 7, and no digit in column
    8.  The format has other lines 1: a number of fewer digits is padded
    with blanks, and the Alpha-5 notation starts with a letter. *)
Definition five_digit_line1 (line1 : string) : bool :=
  startswith "1 " line1
  && (String.length (spec_fixed_range_id line1) =? 5)%nat
  && all_digits (spec_fixed_range_id line1)
  && match String.get 7 line1 with
     | Some c => negb (isdigit c)
     | None => true
     end.

End TLEFormat.

(** ** backend/TLE_Fetch.py *)

Module TLE_Fetch.

Import PyStr.
Open Scope string_scope.

Definition LF : string := String "010"%char EmptyString.

(** *** Constants *)

Definition LOGIN_URL : string := "https://www.space-track.org/ajaxauth/login".
Definition TLE_HISTORY_URL_prefix : string :=
  "https://www.space-track.org/basicspacedata/query/class/gp_history/NORAD_CAT_ID/".
Definition TLE_HISTORY_URL_suffix : string := "/orderby/EPOCH asc/format/tle".
(** [TLE_HISTORY_URL.format(x)] *)
Definition TLE_HISTORY_URL_format (x : string) : string :=
  TLE_HISTORY_URL_prefix +:+ x +:+ TLE_HISTORY_URL_suffix.
Definition test_url : string :=
  "https://www.space-track.org/basicspacedata/query/class/satcat/limit/1".

(** [os.path.join(a, b)] where [a] is not empty and has no final slash and
    [b] is relative, as at every call of the module. *)
Definition path_join (a b : string) : string := a +:+ "/" +:+ b.

Definition TLE_DIR : string := "tle_data".
Definition ORBIT_DIR : string := path_join TLE_DIR "iridium_active".
Definition DEORBITED_DIR : string := path_join TLE_DIR "iridium_inactive".

Definition BATCH_SIZE : nat := 15.
Definition WAIT_TIME : Z := 60.

(** *** The partitioner: [split_and_save_tle] *)

(** The loop [for i in range(0, len(tle_lines), 2)] with its guard
    [i + 1 < len(tle_lines)]: the lines two at a time, a last single line
    left out. *)
Fixpoint line_pairs (l : list string) : list (string * string) :=
  match l with
  | a :: b :: r => (a, b) :: line_pairs r
  | _ => []
  end.

(** [line1.split()[1][:5]]; [IndexError] when [line1] has one field only. *)
Definition extract_norad_id (line1 : string) : outcome string :=
  match split line1 with
  | _ :: f :: _ => Ret (prefix 5 f)
  | _ => Raise IndexError
  end.

(** [tle_dict] is a Python dict: insertion-ordered, one entry per key.
    [tle_dict.setdefault(k, []).append(v)] *)
Fixpoint setdefault_append (k v : string) (d : list (string * list string))
  : list (string * list string) :=
  match d with
  | [] => [(k, [v])]
  | (k', vs) :: d' =>
      if String.eqb k k' then (k', (vs ++ [v])%list) :: d'
      else (k', vs) :: setdefault_append k v d'
  end.

(** The first loop of [split_and_save_tle]. *)
Fixpoint group_pairs (ps : list (string * string)) (tle_dict : list (string * list string))
  : outcome (list (string * list string)) :=
  match ps with
  | [] => Ret tle_dict
  | (line1, line2) :: ps' =>
      if negb (startswith "1 " line1) || negb (startswith "2 " line2)
      then group_pairs ps' tle_dict
      else match extract_norad_id line1 with
           | Ret norad_id =>
               group_pairs ps' (setdefault_append norad_id (line1 +:+ LF +:+ line2) tle_dict)
           | Raise e => Raise e
           | Exit c => Exit c
           end
  end.

(** The file a group is written to. *)
Definition tle_filename (active_norads : gset string) (norad_id : string) : string :=
  let is_deorbited := negb (bool_decide (norad_id ∈ active_norads)) in
  let folder := if is_deorbited then DEORBITED_DIR else ORBIT_DIR in
  path_join folder ("tle_" +:+ norad_id +:+ ".txt").

(** *** The file system

    The files are a map from paths to contents; the directories are the
    set [dirs] of the paths that name an existing directory.  Paths are
    compared as strings, and the process may write in every directory. *)

(** The directory part of a path, up to its last slash; [None] for a path
    without slash. *)
Fixpoint parent (path : string) : option string :=
  match path with
  | EmptyString => None
  | String c rest =>
      match parent rest with
      | Some d => Some (String c d)
      | None => if Ascii.eqb c "/" then Some EmptyString else None
      end
  end.

Definition has_nul (s : string) : bool :=
  contains (String "000"%char EmptyString) s.

(** Whether [open(path, "w")] opens the file: a path with a null character
    raises [ValueError]; a path that names a directory, or whose directory
    part does not name an existing directory, raises an [OSError]
    ([IsADirectoryError], [FileNotFoundError], [NotADirectoryError]). *)
Definition open_w (dirs : gset string) (path : string) : outcome unit :=
  if has_nul path then Raise ValueError
  else if bool_decide (path ∈ dirs) then Raise OSError
  else match parent path with
       | Some d => if bool_decide (d ∈ dirs) then Ret tt else Raise OSError
       | None => Ret tt
       end.

(** The second loop: [open(filename, "w")] truncates or creates the file,
    then the group is written.  An exception of [open] ends the loop; the
    files of the groups before stay written. *)
Fixpoint save_groups (active_norads : gset string) (dirs : gset string)
    (tle_dict : list (string * list string)) (fs : gmap string string)
  : outcome unit * gmap string string :=
  match tle_dict with
  | [] => (Ret tt, fs)
  | (norad_id, tle_content) :: d' =>
      let filename := tle_filename active_norads norad_id in
      match open_w dirs filename with
      | Ret _ =>
          save_groups active_norads dirs d'
            (<[filename := join LF tle_content +:+ LF]> fs)
      | Raise e => (Raise e, fs)
      | Exit c => (Exit c, fs)
      end
  end.

(** [split_and_save_tle(tle_data, active_norads)] in a file system with the
    directories [dirs] and the files [fs]: what the call does, and the
    files after it. *)
Definition split_and_save_tle (tle_data : string) (active_norads : gset string)
    (dirs : gset string) (fs : gmap string string)
  : outcome unit * gmap string string :=
  if String.eqb tle_data EmptyString then (Ret tt, fs)
  else
    let tle_lines := split_on "010"%char (strip tle_data) in
    match group_pairs (line_pairs tle_lines) [] with
    | Ret tle_dict => save_groups active_norads dirs tle_dict fs
    | Raise e => (Raise e, fs)
    | Exit c => (Exit c, fs)
    end.

(** *** The outside world of the fetcher

    One HTTP exchange is a request and what came of it.  The remote
    service is an oracle: it answers the [n]-th request of the run. *)

Inductive http_method : Type := GET | POST.

Record request : Type := mk_request {
  req_method : http_method;
  req_url : string;
  req_data : list (string * option string);   (* the form fields of a POST *)
  req_timeout : option Z;                     (* the [timeout=] argument, in seconds *)
  req_cookies : gmap string string            (* the session's cookies, attached *)
}.

Record response : Type := mk_response {
  status_code : Z;
  text : string;
  set_cookies : gmap string string
}.

Inductive net_result : Type :=
| Responded (r : response)
| Failed (e : exn).

(** The state the module mutates: the requests sent so far, the calls of
    [time.sleep], the cookies of the global [session], the cookie file, and
    the files under [tle_data]. *)
Record state : Type := mk_state {
  sent : list request;
  slept : list Z;
  cookies : gmap string string;
  cookie_file : option (gmap string string);
  files : gmap string string
}.

Definition M (A : Type) : Type := state -> outcome A * state.

Definition ret {A} (a : A) : M A := fun st => (Ret a, st).
Definition raise {A} (e : exn) : M A := fun st => (Raise e, st).
Definition sys_exit {A} (code : Z) : M A := fun st => (Exit code, st).

Definition bind {A B} (m : M A) (k : A -> M B) : M B :=
  fun st =>
    match m st with
    | (Ret a, st') => k a st'
    | (Raise e, st') => (Raise e, st')
    | (Exit c, st') => (Exit c, st')
    end.

(** [try: m  except ...: h]: the handler takes the exceptions it names;
    [sys.exit] goes through. *)
Definition try_except {A} (m : M A) (h : exn -> option (M A)) : M A :=
  fun st =>
    match m st with
    | (Raise e, st') =>
        match h e with
        | Some k => k st'
        | None => (Raise e, st')
        end
    | r => r
    end.

Notation "'let*' x ':=' m 'in' k" := (bind m (fun x => k))
  (at level 10, x name, m at level 100, k at level 200).

Section Fetcher.

(** The remote service. *)
Variable server : nat -> request -> net_result.
(** [os.getenv("SPACETRACK_USER")], [os.getenv("SPACETRACK_PASS")]. *)
Variables SPACETRACK_USER SPACETRACK_PASS : option string.
(** [random.randint(-10, 30)] at the [n]-th processed batch. *)
Variable jitter : nat -> Z.
(** The directories that exist when the module is started. *)
Variable existing_dirs : gset string.

(** [session.request]: the cookies are attached, the request is sent;
    a response updates the cookies, a failure raises. *)
Definition session_request (m : http_method) (url : string)
    (data : list (string * option string)) (timeout : option Z) : M response :=
  fun st =>
    let req := mk_request m url data timeout (cookies st) in
    let sent' := (sent st ++ [req])%list in
    match server (length (sent st)) req with
    | Responded r =>
        (Ret r, mk_state sent' (slept st) (set_cookies r ∪ cookies st)
                  (cookie_file st) (files st))
    | Failed e =>
        (Raise e, mk_state sent' (slept st) (cookies st) (cookie_file st) (files st))
    end.

Definition session_get (url : string) (timeout : option Z) : M response :=
  session_request GET url [] timeout.
Definition session_post (url : string) (data : list (string * option string))
  : M response :=
  session_request POST url data None.

Definition sleep (seconds : Z) : M unit :=
  fun st => (Ret tt, mk_state (sent st) (slept st ++ [seconds])%list (cookies st)
                       (cookie_file st) (files st)).

Definition save_cookies : M unit :=
  fun st => (Ret tt, mk_state (sent st) (slept st) (cookies st)
                       (Some (cookies st)) (files st)).

Definition load_cookies : M unit :=
  fun st =>
    match cookie_file st with
    | Some jar =>
        (Ret tt, mk_state (sent st) (slept st) (jar ∪ cookies st)
                   (cookie_file st) (files st))
    | None => (Ret tt, st)
    end.

Definition check_session_valid : M bool :=
  let* response := session_get test_url None in
  ret (status_code response =? 200)%Z.

Definition login (force : bool) : M unit :=
  let* valid :=
    (if force then ret false
     else let* _ := load_cookies in check_session_valid) in
  if valid then ret tt
  else
    let payload := [("identity", SPACETRACK_USER); ("password", SPACETRACK_PASS)] in
    let* response := session_post LOGIN_URL payload in
    if (status_code response =? 200)%Z then save_cookies
    else sys_exit 1.

(** The tests of [fetch_tle_data] on a response. *)
Definition is_throttled (r : response) : bool :=
  (status_code r =? 429)%Z || contains "Too Many Requests" (text r).
Definition is_no_content (r : response) : bool :=
  (status_code r =? 204)%Z || (String.length (strip (text r)) =? 0)%nat.
Definition is_session_expired (r : response) : bool :=
  contains "alert-danger" (text r)
  || (status_code r =? 401)%Z || (status_code r =? 403)%Z.
Definition is_success (r : response) : bool :=
  (status_code r =? 200)%Z && (0 <? String.length (strip (text r)))%nat.

(** The body of the loop of [fetch_tle_data] at one value of [attempt]:
    [Some v] when the body executes [return v], [None] when the loop goes
    on to the next attempt. *)
Definition fetch_attempt (tle_url : string) (attempt : Z) : M (option (option string)) :=
  try_except
    (let* response := session_get tle_url (Some 30) in
     if is_throttled response then sys_exit 1
     else if is_no_content response then ret (Some None)
     else
       let* response :=
         (if is_session_expired response
          then let* _ := login true in session_get tle_url None
          else ret response) in
       if is_success response then ret (Some (Some (strip (text response))))
       else ret None)
    (fun e =>
       match e with
       | ConnectionError | Timeout =>
           Some (let* _ := sleep (5 + 2 * attempt) in ret None)
       | RequestException => Some (sys_exit 1)
       | _ => None
       end).

Fixpoint fetch_loop (tle_url : string) (attempts : list Z) : M (option string) :=
  match attempts with
  | [] => ret None
  | attempt :: rest =>
      let* r := fetch_attempt tle_url attempt in
      match r with
      | Some v => ret v
      | None => fetch_loop tle_url rest
      end
  end.

(** [range(n)] *)
Definition range (n : nat) : list Z := map Z.of_nat (seq 0 n).

(** [fetch_tle_data(norad_list, retry_attempts)].  With no attempt at
    all, the last [print] reads [norad_str] before it was assigned. *)
Definition fetch_tle_data (norad_list : list string) (retry_attempts : nat)
  : M (option string) :=
  match retry_attempts with
  | O => raise NameError
  | _ => fetch_loop (TLE_HISTORY_URL_format (join "," norad_list)) (range retry_attempts)
  end.

(** *** Names for the requests and states of one attempt *)

(** The request that opens an attempt, [session.get(tle_url, timeout=30)]. *)
Definition batch_request (tle_url : string) (st : state) : request :=
  mk_request GET tle_url [] (Some 30) (cookies st).

(** The request of [login], [session.post(LOGIN_URL, data=payload)]. *)
Definition login_request (st : state) : request :=
  mk_request POST LOGIN_URL
    [("identity", SPACETRACK_USER); ("password", SPACETRACK_PASS)]
    None (cookies st).

(** The request after a forced login, [session.get(tle_url)]. *)
Definition retry_request (tle_url : string) (st : state) : request :=
  mk_request GET tle_url [] None (cookies st).

(** The state after the request [req] got the response [r]. *)
Definition after_response (req : request) (r : response) (st : state) : state :=
  mk_state (sent st ++ [req])%list (slept st) (set_cookies r ∪ cookies st)
    (cookie_file st) (files st).

(** The state after [save_cookies()]. *)
Definition with_saved_cookies (st : state) : state :=
  mk_state (sent st) (slept st) (cookies st) (Some (cookies st)) (files st).

(** The state after the request [req] failed. *)
Definition after_failure (req : request) (st : state) : state :=
  mk_state (sent st ++ [req])%list (slept st) (cookies st) (cookie_file st) (files st).

(** The state after the sleep that follows a transient fault. *)
Definition backed_off (attempt : Z) (st : state) : state :=
  mk_state (sent st) (slept st ++ [5 + 2 * attempt])%list (cookies st)
    (cookie_file st) (files st).

(** A transient network fault. *)
Definition transient (e : exn) : Prop := e = ConnectionError \/ e = Timeout.

(** The ways an attempt is used up, told by the exchanges with the service:
    [used_up tle_url attempt st st'] when the attempt that starts in [st]
    gives no result and leaves the state [st'].  Either a request fails
    with a transient fault (the first one, the login, or the request made
    again), or the last response of the attempt is not a success: the
    first response when it passes every test, the response to the request
    made again after an accepted login otherwise. *)
Inductive used_up (tle_url : string) (attempt : Z) (st : state) : state -> Prop :=
| used_up_fault (e : exn) :
    let q1 := batch_request tle_url st in
    server (length (sent st)) q1 = Failed e ->
    transient e ->
    used_up tle_url attempt st (backed_off attempt (after_failure q1 st))
| used_up_response (r1 : response) :
    let q1 := batch_request tle_url st in
    server (length (sent st)) q1 = Responded r1 ->
    is_throttled r1 = false ->
    is_no_content r1 = false ->
    is_session_expired r1 = false ->
    is_success r1 = false ->
    used_up tle_url attempt st (after_response q1 r1 st)
| used_up_login_fault (r1 : response) (e : exn) :
    let q1 := batch_request tle_url st in
    let st1 := after_response q1 r1 st in
    let q2 := login_request st1 in
    server (length (sent st)) q1 = Responded r1 ->
    is_throttled r1 = false ->
    is_no_content r1 = false ->
    is_session_expired r1 = true ->
    server (length (sent st1)) q2 = Failed e ->
    transient e ->
    used_up tle_url attempt st (backed_off attempt (after_failure q2 st1))
| used_up_retry_fault (r1 r2 : response) (e : exn) :
    let q1 := batch_request tle_url st in
    let st1 := after_response q1 r1 st in
    let q2 := login_request st1 in
    let st2 := with_saved_cookies (after_response q2 r2 st1) in
    let q3 := retry_request tle_url st2 in
    server (length (sent st)) q1 = Responded r1 ->
    is_throttled r1 = false ->
    is_no_content r1 = false ->
    is_session_expired r1 = true ->
    server (length (sent st1)) q2 = Responded r2 ->
    status_code r2 = 200 ->
    server (length (sent st2)) q3 = Failed e ->
    transient e ->
    used_up tle_url attempt st (backed_off attempt (after_failure q3 st2))
| used_up_retry_response (r1 r2 r3 : response) :
    let q1 := batch_request tle_url st in
    let st1 := after_response q1 r1 st in
    let q2 := login_request st1 in
    let st2 := with_saved_cookies (after_response q2 r2 st1) in
    let q3 := retry_request tle_url st2 in
    server (length (sent st)) q1 = Responded r1 ->
    is_throttled r1 = false ->
    is_no_content r1 = false ->
    is_session_expired r1 = true ->
    server (length (sent st1)) q2 = Responded r2 ->
    status_code r2 = 200 ->
    server (length (sent st2)) q3 = Responded r3 ->
    is_success r3 = false ->
    used_up tle_url attempt st (after_response q3 r3 st2).

(** All the attempts of a list are used up, one after the other. *)
Inductive exhausted (tle_url : string) : list Z -> state -> state -> Prop :=
| exhausted_nil (st : state) : exhausted tle_url [] st st
| exhausted_cons (attempt : Z) (rest : list Z) (st st1 st' : state) :
    used_up tle_url attempt st st1 ->
    exhausted tle_url rest st1 st' ->
    exhausted tle_url (attempt :: rest) st st'.

(** *** The batch loop at the end of the module *)

(** [norad_list[i:i+BATCH_SIZE]] for [i] in [range(0, len(norad_list), BATCH_SIZE)] *)
Definition batches (norad_list : list string) : list (list string) :=
  PyList.chunks BATCH_SIZE norad_list.

(** [os.path.exists(...)] of the file of one id, in either directory. *)
Definition tle_file_exists (fs : gmap string string) (norad : string) : bool :=
  bool_decide (is_Some (fs !! path_join ORBIT_DIR ("tle_" +:+ norad +:+ ".txt")))
  || bool_decide (is_Some (fs !! path_join DEORBITED_DIR ("tle_" +:+ norad +:+ ".txt"))).

(** The directories during the run: lines 42-43 make [TLE_DIR] and
    [DEORBITED_DIR] ([os.makedirs(..., exist_ok=True)], taken to succeed);
    nothing makes [ORBIT_DIR]. *)
Definition run_dirs : gset string := {[ TLE_DIR; DEORBITED_DIR ]} ∪ existing_dirs.

Definition run_partitioner (tle_data : string) (active_norads : gset string) : M unit :=
  fun st =>
    let '(o, fs') := split_and_save_tle tle_data active_norads run_dirs (files st) in
    (o, mk_state (sent st) (slept st) (cookies st) (cookie_file st) fs').

(** One iteration of the batch loop; [n] counts the iterations. *)
Definition process_batch (active_norads : gset string) (n : nat) (batch : list string)
  : M unit :=
  fun st =>
    if forallb (tle_file_exists (files st)) batch then (Ret tt, st)
    else
      (let* tle_data := fetch_tle_data batch 5 in
       let* _ :=
         match tle_data with
         | Some d => if String.eqb d EmptyString then ret tt else run_partitioner d active_norads
         | None => ret tt
         end in
       sleep (WAIT_TIME + jitter n)) st.

Fixpoint batch_loop (active_norads : gset string) (n : nat) (bs : list (list string))
  : M unit :=
  match bs with
  | [] => ret tt
  | b :: bs' =>
      let* _ := process_batch active_norads n b in
      batch_loop active_norads (S n) bs'
  end.

(** The run of the module, from the sorted list of all ids: [login()], then
    the batch loop. *)
Definition pipeline (active_norads : gset string) (norad_list : list string) : M unit :=
  let* _ := login false in
  batch_loop active_norads 0 (batches norad_list).

End Fetcher.

(** *** Names for the properties of the module *)

(** The exceptions of [requests], the ones a call of [session.get] or
    [session.post] raises. *)
Definition network_exn (e : exn) : bool :=
  match e with
  | ConnectionError | Timeout | RequestException => true
  | _ => false
  end.

(** The request of [check_session_valid], [session.get(test_url)]. *)
Definition probe_request (st : state) : request :=
  mk_request GET test_url [] None (cookies st).

(** The two kinds of request of [fetch_tle_data]: the query of the batch,
    and the login. *)
Definition fetcher_request (tle_url : string) (q : request) : Prop :=
  (req_method q = GET /\ req_url q = tle_url /\ req_data q = []) \/
  (req_method q = POST /\ req_url q = LOGIN_URL).

(** The test of the first loop of [split_and_save_tle] on a pair:
    [line1.startswith("1 ") and line2.startswith("2 ")]. *)
Definition marked (p : string * string) : bool :=
  startswith "1 " p.1 && startswith "2 " p.2.

(** Whether the first loop puts the pair under the key [norad_id]. *)
Definition in_group (norad_id : string) (p : string * string) : bool :=
  marked p &&
  match extract_norad_id p.1 with
  | Ret id => String.eqb id norad_id
  | _ => false
  end.

(** The pairs of [norad_id], in the order of the text. *)
Definition pairs_of (norad_id : string) (ps : list (string * string))
  : list (string * string) :=
  List.filter (in_group norad_id) ps.

(** The entry of a pair in its group, [f"{line1}\n{line2}"]. *)
Definition entry (p : string * string) : string := p.1 +:+ LF +:+ p.2.

(** [tle_dict.get(k, [])] *)
Fixpoint dict_get (k : string) (d : list (string * list string)) : list string :=
  match d with
  | [] => []
  | (k', vs) :: d' => if String.eqb k k' then vs else dict_get k d'
  end.

(** No character of [s] ends a line for [str.splitlines]. *)
Fixpoint no_linebreak (s : string) : bool :=
  match s with
  | EmptyString => true
  | String c s' => negb (islinebreak c) && no_linebreak s'
  end.

End TLE_Fetch.

(** ** The calendar of Python's [datetime]

    [datetime.utcfromtimestamp] as CPython computes it: the timestamp is
    split into whole seconds and microseconds (rounded half to even), the
    seconds into a day number and a time of day, the day number into a
    proleptic Gregorian date by [_ord2ymd].  Years outside 1..9999 raise. *)

Module PyDatetime.

Record datetime : Type := mk_datetime {
  year : Z; month : Z; day : Z;
  hour : Z; minute : Z; second : Z; microsecond : Z
}.

#[global] Instance datetime_eq_dec : EqDecision datetime.
Proof. solve_decision. Defined.

Definition datetime_to_tuple (d : datetime) : Z * Z * Z * Z * Z * Z * Z :=
  (year d, month d, day d, hour d, minute d, second d, microsecond d).
Definition datetime_of_tuple (t : Z * Z * Z * Z * Z * Z * Z) : datetime :=
  let '(y, mo, d, h, mi, s, us) := t in mk_datetime y mo d h mi s us.

#[global] Instance datetime_countable : Countable datetime.
Proof.
  apply (inj_countable' datetime_to_tuple datetime_of_tuple).
  intros []; reflexivity.
Defined.

Definition _DI400Y : Z := 146097.
Definition _DI100Y : Z := 36524.
Definition _DI4Y : Z := 1461.

Definition _is_leap (y : Z) : bool :=
  (y mod 4 =? 0) && (negb (y mod 100 =? 0) || (y mod 400 =? 0)).

Definition _days_before_year (y0 : Z) : Z :=
  let y := y0 - 1 in
  y * 365 + y / 4 - y / 100 + y / 400.

(** [_DAYS_IN_MONTH[m]] *)
Definition _DAYS_IN_MONTH (m : Z) : Z :=
  nth (Z.to_nat m) [-1; 31; 28; 31; 30; 31; 30; 31; 31; 30; 31; 30; 31] 0.

(** [_DAYS_BEFORE_MONTH[m]] *)
Definition _DAYS_BEFORE_MONTH (m : Z) : Z :=
  nth (Z.to_nat m) [-1; 0; 31; 59; 90; 120; 151; 181; 212; 243; 273; 304; 334] 0.

Definition _days_before_month (y m : Z) : Z :=
  _DAYS_BEFORE_MONTH m + (if (2 <? m) && _is_leap y then 1 else 0).

Definition _ymd2ord (y m d : Z) : Z :=
  _days_before_year y + _days_before_month y m + d.

Definition _ord2ymd (ordinal : Z) : Z * Z * Z :=
  let n := ordinal - 1 in
  let n400 := n / _DI400Y in
  let n := n mod _DI400Y in
  let y := n400 * 400 + 1 in
  let n100 := n / _DI100Y in
  let n := n mod _DI100Y in
  let n4 := n / _DI4Y in
  let n := n mod _DI4Y in
  let n1 := n / 365 in
  let n := n mod 365 in
  let y := y + n100 * 100 + n4 * 4 + n1 in
  if (n1 =? 4) || (n100 =? 4) then (y - 1, 12, 31)
  else
    let leapyear := (n1 =? 3) && (negb (n4 =? 24) || (n100 =? 3)) in
    let m := Z.shiftr (n + 50) 5 in
    let preceding := _DAYS_BEFORE_MONTH m + (if (2 <? m) && leapyear then 1 else 0) in
    if n <? preceding then
      let m := m - 1 in
      let preceding :=
        preceding - (_DAYS_IN_MONTH m + (if (m =? 2) && leapyear then 1 else 0)) in
      (y, m, n - preceding + 1)
    else (y, m, n - preceding + 1).

(** The last steps of [_ord2ymd], from the day [n] of the year (from 0) to
    the month and the day, checked against the tables: the month and the
    day are in range and count back to [n]. *)
Definition month_day_ok (leapyear : bool) (n : Z) : bool :=
  let m := Z.shiftr (n + 50) 5 in
  let preceding := _DAYS_BEFORE_MONTH m + (if (2 <? m) && leapyear then 1 else 0) in
  let '(m, d) :=
    if n <? preceding then
      let m := m - 1 in
      let preceding :=
        preceding - (_DAYS_IN_MONTH m + (if (m =? 2) && leapyear then 1 else 0)) in
      (m, n - preceding + 1)
    else (m, n - preceding + 1) in
  (1 <=? m) && (m <=? 12) && (1 <=? d) && (d <=? 31)
  && (d <=? _DAYS_IN_MONTH m + (if (m =? 2) && leapyear then 1 else 0))
  && (_DAYS_BEFORE_MONTH m + (if (2 <? m) && leapyear then 1 else 0) + d =? n + 1).

(** [datetime(1970, 1, 1).toordinal()] and [datetime.max.toordinal()] *)
Definition EPOCH_ORDINAL : Z := 719163.
Definition MAX_ORDINAL : Z := 3652059.

(** Rounding to the nearest integer, ties to even. *)
Definition round_half_even (x : Q) : Z :=
  let f := Qfloor x in
  match Qcompare (x - inject_Z f) (1 # 2) with
  | Lt => f
  | Gt => f + 1
  | Eq => if Z.even f then f else f + 1
  end.

(** The integral part of a rational, towards zero. *)
Definition Qtrunc (x : Q) : Z := Z.quot (Qnum x) (Zpos (Qden x)).

(** The value of a binary64 number; [None] for an infinity and for a NaN. *)
Definition float_value (f : float) : option Q :=
  match Prim2SF f with
  | S754_zero _ => Some 0%Q
  | S754_finite s m e =>
      let n := if s then Z.neg m else Z.pos m in
      Some (if 0 <=? e then inject_Z (n * 2 ^ e)
            else Qmake n (Pos.shiftl 1%positive (Z.to_N (- e))))
  | _ => None
  end.

(** The binary64 number of an integer, exact below [2 ^ 53]. *)
Definition float_of_Z (z : Z) : float :=
  if z <? 0 then (- PrimFloat.of_uint63 (Uint63.of_Z (- z)))%float
  else PrimFloat.of_uint63 (Uint63.of_Z z).

(** The split of a float timestamp into seconds and microseconds, as the
    constructor does it ([_PyTime_ObjectToTimeval] with rounding half to
    even): [modf], the fractional part times [1e6] in binary64, rounded to
    an integer, and a carry.  The fractional part of [modf] is exact, and so
    is the subtraction that gives it here; a value of [2 ^ 53] or more is an
    integer.  A NaN and an infinity raise. *)
Definition timestamp_to_timeval (d : float) : option (Z * Z) :=
  match float_value d with
  | None => None
  | Some v =>
      let intpart := Qtrunc v in
      let floatpart :=
        if 2 ^ 53 <=? Z.abs intpart then 0%float
        else (d - float_of_Z intpart)%float in
      let floatpart := (floatpart * 1000000)%float in
      match float_value floatpart with
      | None => None
      | Some fv =>
          let floatpart := round_half_even fv in
          Some (if 1000000 <=? floatpart then (intpart + 1, floatpart - 1000000)
                else if floatpart <? 0 then (intpart - 1, floatpart + 1000000)
                else (intpart, floatpart))
      end
  end.

(** [datetime.utcfromtimestamp(t)]; [None] when it raises: the timestamp is
    not a number, or the year is not in 1 .. 9999, or the microsecond not
    in 0 .. 999999 (the checks of the constructor). *)
Definition utcfromtimestamp (t : float) : option datetime :=
  match timestamp_to_timeval t with
  | None => None
  | Some (secs, us) =>
      let days := secs / 86400 in
      let rem := secs mod 86400 in
      let ordinal := EPOCH_ORDINAL + days in
      if (1 <=? ordinal) && (ordinal <=? MAX_ORDINAL)
         && (0 <=? us) && (us <? 1000000) then
        let '(y, m, d) := _ord2ymd ordinal in
        Some (mk_datetime y m d (rem / 3600) (rem mod 3600 / 60) (rem mod 60) us)
      else None
  end.

(** The instant a [datetime] read as UTC denotes, in microseconds since
    1970-01-01T00:00:00Z ([calendar.timegm] with the microseconds added). *)
Definition unix_micros (dt : datetime) : Z :=
  ((_ymd2ord (year dt) (month dt) (day dt) - EPOCH_ORDINAL) * 86400
   + hour dt * 3600 + minute dt * 60 + second dt) * 1000000 + microsecond dt.

(** [round(x, ndigits)] on an exact value. *)
Definition py_round (x : Q) (ndigits : nat) : Q :=
  let p := 10 ^ Z.of_nat ndigits in
  (inject_Z (round_half_even (x * inject_Z p)) / inject_Z p)%Q.

End PyDatetime.

(** ** backend/data_input.py *)

Module data_input.

Import PyStr PyDatetime.
Open Scope string_scope.

(** [NORAD_REGEX.search(s)] for [NORAD_REGEX = re.compile(r"1 (\d+)")]:
    the leftmost place where a 1, a space and a digit follow one another;
    group 1 is the longest run of digits from there. *)
Fixpoint take_digits (s : string) : string :=
  match s with
  | String c s' => if isdigit c then String c (take_digits s') else EmptyString
  | EmptyString => EmptyString
  end.

Fixpoint NORAD_REGEX_search (s : string) : option string :=
  match s with
  | EmptyString => None
  | String c s' =>
      match (if Ascii.eqb c "1" then
               match s' with
               | String " " rest =>
                   match take_digits rest with
                   | EmptyString => None
                   | ds => Some ds
                   end
               | _ => None
               end
             else None) with
      | Some ds => Some ds
      | None => NORAD_REGEX_search s'
      end
  end.

(** [int(match.group(1))] when line 1 matches; [None] when it does not. *)
Definition norad_id_of_line1 (line1 : string) : option Z :=
  option_map int_of_digits (NORAD_REGEX_search line1).

(** [JD_UNIX_EPOCH = 2440587.5], the Julian date of 1970-01-01. *)
Definition JD_UNIX_EPOCH : float := 2440587.5%float.

(** [timestamp = (jd_full - JD_UNIX_EPOCH) * 86400.0], in binary64. *)
Definition jday_timestamp (jd fr : float) : float :=
  let jd_full := (jd + fr)%float in
  ((jd_full - JD_UNIX_EPOCH) * 86400)%float.

(** [jday_to_datetime(jd, fr)]; [None] when [utcfromtimestamp] raises. *)
Definition jday_to_datetime (jd fr : float) : option datetime :=
  utcfromtimestamp (jday_timestamp jd fr).

(** One parsed row, the dict that [parse_tle_file] yields.  The key
    [is_active] is added afterwards by [insert_tle_file_to_db]. *)
Record tle_row : Type := mk_tle_row {
  norad_id : Z;
  epoch : datetime;
  tle_line1 : string;
  tle_line2 : string;
  altitude_km : option Q;
  x : option Q;
  y : option Q;
  z : option Q;
  velocity_kms : option Q;
  vx : option Q;
  vy : option Q;
  vz : option Q;
  is_active : option bool
}.

Definition set_is_active (b : bool) (r : tle_row) : tle_row :=
  mk_tle_row (norad_id r) (epoch r) (tle_line1 r) (tle_line2 r) (altitude_km r)
    (x r) (y r) (z r) (velocity_kms r) (vx r) (vy r) (vz r) (Some b).

(** The loop of [parse_tle_file] pairs the lines as the partitioner does:
    [for i in range(0, len(lines) - 1, 2)]. *)
Definition line_pairs := TLE_Fetch.line_pairs.

Section Deriver.

(** The propagator library [sgp4.api]: a model is built from two lines
    (or the constructor raises), has an epoch in two parts, and is
    propagated to a time, giving an error code, a position and a
    velocity. *)
Variable Satrec : Type.
Variable twoline2rv : string -> string -> option Satrec.
Variables jdsatepoch jdsatepochF : Satrec -> float.
Variable sgp4 : Satrec -> float -> float -> Z * (Q * Q * Q) * (Q * Q * Q).
(** [math.sqrt] *)
Variable sqrt : Q -> Q.

(** [existing_tles and (norad_id, epoch) in existing_tles] *)
Definition already_known (existing_tles : option (gset (Z * datetime)))
    (k : Z * datetime) : bool :=
  match existing_tles with
  | Some s => negb (bool_decide (s = ∅)) && bool_decide (k ∈ s)
  | None => false
  end.

(** The body of the loop for one pair of stripped lines.  The result is
    the calls of [sat.sgp4] the body made and the row it yields, if any;
    every exception ends the body without a row.  On exact values [x**2] is
    [x * x] and does not overflow. *)
Definition parse_pair (existing_tles : option (gset (Z * datetime)))
    (line1 line2 : string) : list (Satrec * float * float) * option tle_row :=
  match norad_id_of_line1 line1 with
  | None => ([], None)
  | Some norad_id =>
      match twoline2rv line1 line2 with
      | None => ([], None)
      | Some sat =>
          let jd := jdsatepoch sat in
          let fr := jdsatepochF sat in
          match jday_to_datetime jd fr with
          | None => ([], None)
          | Some epoch =>
              if already_known existing_tles (norad_id, epoch) then ([], None)
              else
                let '(error_code, position, velocity) := sgp4 sat jd fr in
                let call := [(sat, jd, fr)] in
                if negb (error_code =? 0)%Z then
                  (call,
                   Some (mk_tle_row norad_id epoch line1 line2
                           None None None None None None None None None))
                else
                  let '(x, y, z) := position in
                  let r_norm := sqrt (x * x + y * y + z * z)%Q in
                  let altitude := (r_norm - inject_Z 6371)%Q in
                  let '(vx, vy, vz) := velocity in
                  let velocity_magnitude :=
                    py_round (sqrt (vx * vx + vy * vy + vz * vz)%Q) 4 in
                  (call,
                   Some (mk_tle_row norad_id epoch line1 line2
                           (Some (py_round altitude 2))
                           (Some (py_round x 4)) (Some (py_round y 4))
                           (Some (py_round z 4))
                           (Some velocity_magnitude)
                           (Some (py_round vx 4)) (Some (py_round vy 4))
                           (Some (py_round vz 4))
                           None))
          end
      end
  end.

(** The error code of the propagator for the element set a row stores,
    and the derived state of a row. *)
Definition propagator_error_code (r : tle_row) : option Z :=
  match twoline2rv (tle_line1 r) (tle_line2 r) with
  | Some sat => Some (sgp4 sat (jdsatepoch sat) (jdsatepochF sat)).1.1
  | None => None
  end.

Definition state_fields (r : tle_row) : list (option Q) :=
  [x r; y r; z r; vx r; vy r; vz r; velocity_kms r; altitude_km r].

Fixpoint parse_pairs (existing_tles : option (gset (Z * datetime)))
    (ps : list (string * string)) : list (Satrec * float * float) * list tle_row :=
  match ps with
  | [] => ([], [])
  | (l1, l2) :: ps' =>
      let '(calls, row) := parse_pair existing_tles (strip l1) (strip l2) in
      let '(calls', rows) := parse_pairs existing_tles ps' in
      ((calls ++ calls')%list,
       match row with Some r => r :: rows | None => rows end)
  end.

(** [parse_tle_file] on the text of the file: the propagations made and
    the rows yielded, in order. *)
Definition parse_tle_file (content : string)
    (existing_tles : option (gset (Z * datetime)))
  : list (Satrec * float * float) * list tle_row :=
  parse_pairs existing_tles (line_pairs (splitlines content)).

End Deriver.

(** *** The store and [chunked_insert]

    The table [starlink_tle] is the list of its rows, without the surrogate
    [id]; the constraint [uix_norad_epoch] is on the columns
    [(norad_id, epoch)].  The store is an oracle for faults: whether the
    [n]-th [conn.execute] of the run raises (then its transaction inserts
    nothing). *)

Definition row_key (r : tle_row) : Z * datetime := (norad_id r, epoch r).

(** [INSERT ... VALUES chunk ON CONFLICT ON CONSTRAINT uix_norad_epoch DO
    NOTHING]: a row whose key is in the table, or was inserted before it by
    the same statement, is left out. *)
Fixpoint on_conflict_do_nothing (chunk table : list tle_row) : list tle_row :=
  match chunk with
  | [] => table
  | r :: chunk' =>
      if bool_decide (row_key r ∈ row_key <$> table)
      then on_conflict_do_nothing chunk' table
      else on_conflict_do_nothing chunk' (table ++ [r])%list
  end.

Record store : Type := mk_store {
  table : list tle_row;
  executed : nat;            (* the calls of [conn.execute] so far *)
  store_slept : list Z;      (* the calls of [time.sleep] *)
  abandoned : list (list tle_row)   (* the chunks given up after [max_retries] *)
}.

Section Store.

Variable db_fault : nat -> bool.

(** The [while attempts < max_retries] loop with its [else] branch. *)
Fixpoint insert_with_retry (retries_left : nat) (retry_delay : Z)
    (chunk : list tle_row) (st : store) : store :=
  match retries_left with
  | O => mk_store (table st) (executed st) (store_slept st)
           (abandoned st ++ [chunk])%list
  | S k =>
      if db_fault (executed st) then
        insert_with_retry k retry_delay chunk
          (mk_store (table st) (S (executed st))
             (store_slept st ++ [retry_delay])%list (abandoned st))
      else
        mk_store (on_conflict_do_nothing chunk (table st)) (S (executed st))
          (store_slept st) (abandoned st)
  end.

Fixpoint insert_chunks (max_retries : nat) (retry_delay : Z)
    (cs : list (list tle_row)) (st : store) : store :=
  match cs with
  | [] => st
  | chunk :: cs' =>
      insert_chunks max_retries retry_delay cs'
        (insert_with_retry max_retries retry_delay chunk st)
  end.

(** [chunked_insert(records, chunk_size, max_retries, retry_delay)];
    [range] raises on a step of zero. *)
Definition chunked_insert (records : list tle_row) (chunk_size max_retries : nat)
    (retry_delay : Z) (st : store) : outcome unit * store :=
  match chunk_size with
  | O => (Raise ValueError, st)
  | _ => (Ret tt,
          insert_chunks max_retries retry_delay (PyList.chunks chunk_size records) st)
  end.

(** [insert_tle_file_to_db], given the rows [parse_tle_file] yielded: a file
    without rows is reported and left; otherwise every row gets the flag of
    its directory and the rows are inserted in chunks of 100. *)
Definition insert_tle_file_to_db (parsed_tles : list tle_row) (is_active : bool)
    (st : store) : outcome unit * store :=
  match parsed_tles with
  | [] => (Ret tt, st)
  | _ => chunked_insert (set_is_active is_active <$> parsed_tles) 100 3 5 st
  end.

End Store.

(** [fetch_existing_tles()]: the pairs [(norad_id, epoch)] of the rows of
    the table, as a set.  The query is taken to succeed. *)
Definition fetch_existing_tles (table : list tle_row) : gset (Z * datetime) :=
  list_to_set (row_key <$> table).

Section DeriverKey.

Variable Satrec : Type.
Variable twoline2rv : string -> string -> option Satrec.
Variables jdsatepoch jdsatepochF : Satrec -> float.

(** The id and the epoch that the body of the loop of [parse_tle_file]
    has computed for a pair when it looks into the index; [None] when the
    body ends before. *)
Definition pair_key (line1 line2 : string) : option (Z * datetime) :=
  match norad_id_of_line1 line1 with
  | None => None
  | Some id =>
      match twoline2rv line1 line2 with
      | None => None
      | Some sat =>
          match jday_to_datetime (jdsatepoch sat) (jdsatepochF sat) with
          | None => None
          | Some ep => Some (id, ep)
          end
      end
  end.

End DeriverKey.

End data_input.


(** ** Concrete inputs

    Element sets, remote services, a propagator and a store small enough to
    run, on which the properties below are exercised. *)

Module Fixtures.

Import PyStr TLE_Fetch PyDatetime data_input.
Open Scope string_scope.

(** Two element sets of epoch 2024, day 15.5. *)
Definition line1_iss : string :=
  "1 25544U 98067A   24015.50000000  .00016717  00000-0  30306-3 0  9994".
Definition line2_iss : string :=
  "2 25544  51.6416 247.4627 0006703 130.5360 325.0288 15.49815308434712".
Definition line1_decayed : string :=
  "1 44235U 19029A   24015.50000000  .09999999  00000-0  99999-1 0  9995".
Definition line2_decayed : string :=
  "2 44235  53.0000 100.0000 0001000  90.0000 270.0000 16.50000000100001".

(** Line 1 of object 5 (Vanguard 1): the catalog number is padded with
    blanks. *)
Definition line1_blank_padded : string :=
  "1     5U 58002B   24015.50000000  .00000023  00000-0  28098-4 0  9993".

(** A line 1 whose catalog number is in the Alpha-5 notation. *)
Definition line1_alpha5 : string :=
  "1 A0001U 20001A   24015.50000000  .00000000  00000-0  00000-0 0  9991".

Definition tle_text : string := line1_iss +:+ LF +:+ line2_iss +:+ LF.
Definition tle_text_two : string :=
  tle_text +:+ line1_decayed +:+ LF +:+ line2_decayed +:+ LF.

(** *** The fetcher *)

Definition user : option string := Some "operator".
Definition pass : option string := Some "secret".
Definition no_jitter (n : nat) : Z := 0.

Definition st0 : state := mk_state [] [] ∅ None ∅.

Definition url_25544 : string := TLE_HISTORY_URL_format "25544".

Definition expired_page : response :=
  mk_response 401 "<div class='alert-danger'>Session expired</div>" ∅.
Definition login_ok : response := mk_response 200 EmptyString {["session" := "s1"]}.
Definition tle_page : response := mk_response 200 tle_text ∅.
Definition throttle_page : response := mk_response 429 "Too Many Requests" ∅.

(** The session has expired; the login is accepted; the data follows. *)
Definition srv_session_expired (n : nat) (q : request) : net_result :=
  match n with
  | 0%nat => Responded expired_page
  | 1%nat => Responded login_ok
  | _ => Responded tle_page
  end.

(** As before, but the request made again after the login is throttled. *)
Definition srv_throttled_retry (n : nat) (q : request) : net_result :=
  match n with
  | 0%nat => Responded expired_page
  | 1%nat => Responded login_ok
  | 2%nat => Responded throttle_page
  | _ => Responded tle_page
  end.

Definition srv_401_blank (n : nat) (q : request) : net_result :=
  Responded (mk_response 401 EmptyString ∅).
Definition srv_204 (n : nat) (q : request) : net_result :=
  Responded (mk_response 204 EmptyString ∅).
Definition srv_data (n : nat) (q : request) : net_result :=
  Responded tle_page.

(** Every login is accepted, and every query is answered as if the session
    had expired. *)
Definition srv_relogin_loop (n : nat) (q : request) : net_result :=
  match req_method q with
  | POST => Responded login_ok
  | GET => Responded expired_page
  end.

(** A run directory in which the file of 25544 is left from an earlier
    run, and the same with the file of 25545 as well. *)
Definition path_25544 : string := "tle_data/iridium_inactive/tle_25544.txt".
Definition path_25545 : string := "tle_data/iridium_inactive/tle_25545.txt".
Definition st_all_files : state :=
  mk_state [] [] ∅ None (<[ path_25545 := "old" ]> {[ path_25544 := "old" ]}).

(** *** The deriver *)

(** A propagator that reads nothing but the marker of the lines, puts
    every epoch at 2024-01-15T12:00:00Z, and reports decay (code 6) for
    every object but 25544. *)
Definition toy_Satrec : Type := string * string.
Definition toy_twoline2rv (l1 l2 : string) : option toy_Satrec :=
  if startswith "1 " l1 && startswith "2 " l2 then Some (l1, l2) else None.
Definition toy_jdsatepoch (sat : toy_Satrec) : float := 2460324.5%float.
Definition toy_jdsatepochF (sat : toy_Satrec) : float := 0.5%float.
Definition toy_sgp4 (sat : toy_Satrec) (jd fr : float)
  : Z * (Q * Q * Q) * (Q * Q * Q) :=
  if startswith "1 25544" sat.1
  then (0, (67781234567 # 10000000, 0, 0)%Q, (0, 76712345 # 10000000, 0)%Q)
  else (6, (0, 0, 0)%Q, (0, 0, 0)%Q).
Definition toy_sqrt (q : Q) : Q := inject_Z (Z.sqrt (Qfloor q)).

(** A model whose Julian epoch has the part [x]. *)
Definition epoch_at (x : float) (sat : toy_Satrec) : float := x.

Definition epoch_2024_01_15 : datetime := mk_datetime 2024 1 15 12 0 0 0.

Definition row_decayed : tle_row :=
  mk_tle_row 44235 epoch_2024_01_15 line1_decayed line2_decayed
    None None None None None None None None None.

(** *** The store *)

Definition row_of (id : Z) (day : Z) : tle_row :=
  mk_tle_row id (mk_datetime 2024 1 day 12 0 0 0) line1_iss line2_iss
    None None None None None None None None (Some true).

Definition store0 : store := mk_store [row_of 25544 2] 0 [] [].

(** The first statement of the run fails, the others are accepted. *)
Definition fault_once (n : nat) : bool := (n =? 0)%nat.

(** Every statement of the run fails. *)
Definition fault_always (n : nat) : bool := true.

(** The run directory after the text of 25544 was partitioned into an
    empty directory, no id being active. *)
Definition fs_25544 : gmap string string := {[ path_25544 := tle_text ]}.

End Fixtures.

(** * Properties *)

Ltac Zify.zify_post_hook ::= Z.div_mod_to_equations.

(** ** Slicing in steps *)

Module PyListFacts.

Import PyList.
Local Open Scope list_scope.

Lemma chunks_fuel_concat {A} (size : nat) :
  (0 < size)%nat ->
  forall (fuel : nat) (l : list A), (length l <= fuel)%nat ->
  concat (chunks_fuel fuel size l) = l.
Proof.
  intros Hsize fuel. induction fuel as [|f IH]; intros l Hlen.
  - destruct l; [reflexivity | simpl in Hlen; lia].
  - destruct l as [|a l]; [reflexivity|].
    cbn [chunks_fuel concat]. rewrite IH.
    + apply take_drop.
    + rewrite length_drop. simpl in *. lia.
Qed.

(** The chunks, one after the other, are the list. *)
Lemma chunks_concat {A} (size : nat) (l : list A) :
  (0 < size)%nat -> concat (chunks size l) = l.
Proof. intros H. apply chunks_fuel_concat; [assumption | lia]. Qed.

Lemma chunks_elem_of {A} (size : nat) (l c : list A) (a : A) :
  (0 < size)%nat -> c ∈ chunks size l -> a ∈ c -> a ∈ l.
Proof.
  intros Hsize Hc Ha. rewrite <- (chunks_concat size l Hsize).
  apply list_elem_of_In, in_concat. exists c.
  split; by apply list_elem_of_In.
Qed.

End PyListFacts.

(** ** Stripping *)

Module PyStrFacts.

Import PyStr.

Lemma lstrip_idem (s : string) : lstrip (lstrip s) = lstrip s.
Proof.
  induction s as [|c s IH]; [reflexivity|]. cbn [lstrip].
  destruct (isspace c) eqn:Hc; [exact IH|]. cbn [lstrip]. by rewrite Hc.
Qed.

Lemma rstrip_cons (c : ascii) (s : string) :
  rstrip (String c s)
  = match rstrip s with
    | EmptyString => if isspace c then EmptyString else String c EmptyString
    | r => String c r
    end.
Proof. reflexivity. Qed.

Lemma rstrip_idem (s : string) : rstrip (rstrip s) = rstrip s.
Proof.
  induction s as [|c s IH]; [reflexivity|]. rewrite rstrip_cons.
  destruct (rstrip s) as [|d r] eqn:Hr.
  - destruct (isspace c) eqn:Hc; [reflexivity|]. cbn [rstrip]. by rewrite Hc.
  - rewrite rstrip_cons, IH. reflexivity.
Qed.

Lemma rstrip_lstrip_fixed (t : string) : rstrip t = t -> rstrip (lstrip t) = lstrip t.
Proof.
  induction t as [|c t IH]; [reflexivity|]. intros Ht. cbn [lstrip].
  destruct (isspace c) eqn:Hc; [|exact Ht].
  apply IH. cbn [rstrip] in Ht. destruct (rstrip t) as [|d r].
  - rewrite Hc in Ht. discriminate.
  - by injection Ht.
Qed.

Lemma strip_idem (s : string) : strip (strip s) = strip s.
Proof.
  unfold strip. rewrite rstrip_lstrip_fixed by apply rstrip_idem. apply lstrip_idem.
Qed.

End PyStrFacts.

(** ** The store *)

Module StoreFacts.

Import PyList PyListFacts PyDatetime data_input.
Local Open Scope list_scope.

Lemma on_conflict_do_nothing_app (a b t : list tle_row) :
  on_conflict_do_nothing (a ++ b) t
  = on_conflict_do_nothing b (on_conflict_do_nothing a t).
Proof.
  revert t. induction a as [|r a IH]; intros t; [reflexivity|].
  simpl. case_bool_decide; apply IH.
Qed.

(** Rows with new, pairwise different keys are all inserted. *)
Lemma on_conflict_do_nothing_fresh (l t : list tle_row) :
  NoDup (row_key <$> l) ->
  (forall r, r ∈ l -> row_key r ∉ row_key <$> t) ->
  on_conflict_do_nothing l t = t ++ l.
Proof.
  revert t. induction l as [|r l IH]; intros t Hnd Hfresh.
  - simpl. by rewrite app_nil_r.
  - simpl. rewrite fmap_cons in Hnd. apply NoDup_cons in Hnd as [Hr Hnd].
    case_bool_decide as Hin.
    + exfalso. apply (Hfresh r); [left | exact Hin].
    + rewrite IH; [by rewrite <- app_assoc | exact Hnd |].
      intros r' Hr'. rewrite fmap_app, elem_of_app. intros [Hc|Hc].
      * apply (Hfresh r'); [by right | exact Hc].
      * simpl in Hc. apply list_elem_of_singleton in Hc.
        apply Hr. rewrite <- Hc. apply list_elem_of_fmap. by exists r'.
Qed.

Lemma on_conflict_do_nothing_one_duplicate (l1 l2 t : list tle_row) (dup : tle_row) :
  NoDup (row_key <$> l1 ++ dup :: l2) ->
  row_key dup ∈ row_key <$> t ->
  (forall r, r ∈ l1 ++ l2 -> row_key r ∉ row_key <$> t) ->
  on_conflict_do_nothing (l1 ++ dup :: l2) t = t ++ l1 ++ l2.
Proof.
  intros Hnd Hdup Hfresh.
  rewrite fmap_app, fmap_cons in Hnd.
  apply NoDup_app in Hnd as (Hnd1 & Hdisj & Hnd2).
  apply NoDup_cons in Hnd2 as [Hd2 Hnd2].
  rewrite on_conflict_do_nothing_app.
  rewrite (on_conflict_do_nothing_fresh l1 t); [| exact Hnd1 |].
  2:{ intros r Hr. apply Hfresh. apply elem_of_app. by left. }
  simpl. rewrite bool_decide_true.
  2:{ rewrite fmap_app, elem_of_app. by left. }
  rewrite on_conflict_do_nothing_fresh; [by rewrite <- app_assoc | exact Hnd2 |].
  intros r Hr. rewrite fmap_app, elem_of_app. intros [Hc|Hc].
  - apply (Hfresh r); [apply elem_of_app; by right | exact Hc].
  - apply (Hdisj (row_key r)); [exact Hc|]. right.
    apply list_elem_of_fmap. by exists r.
Qed.

Section Store.

Variable db_fault : nat -> bool.

(** A chunk is inserted as soon as one of its attempts is accepted. *)
Lemma insert_with_retry_accepts (k : nat) (retry_delay : Z)
    (chunk : list tle_row) (st : store) :
  (exists j, (j < k)%nat /\ db_fault (executed st + j) = false) ->
  let st' := insert_with_retry db_fault k retry_delay chunk st in
  table st' = on_conflict_do_nothing chunk (table st) /\
  abandoned st' = abandoned st.
Proof.
  revert st. induction k as [|k IH]; intros st (j & Hj & Hok); [lia|].
  simpl. destruct (db_fault (executed st)) eqn:Hf.
  - destruct j as [|j]; [rewrite Nat.add_0_r in Hok; congruence|].
    destruct (IH (mk_store (table st) (S (executed st))
                    (store_slept st ++ [retry_delay]) (abandoned st))) as [H1 H2].
    + exists j. split; [lia|]. simpl. rewrite <- Hok. f_equal. lia.
    + simpl in H1, H2. auto.
  - simpl. auto.
Qed.

Lemma insert_chunks_accepts (max_retries : nat) (retry_delay : Z)
    (cs : list (list tle_row)) (st : store) :
  (forall n, exists j, (j < max_retries)%nat /\ db_fault (n + j) = false) ->
  let st' := insert_chunks db_fault max_retries retry_delay cs st in
  table st' = on_conflict_do_nothing (concat cs) (table st) /\
  abandoned st' = abandoned st.
Proof.
  intros Hacc. revert st. induction cs as [|c cs IH]; intros st; [simpl; auto|].
  cbn [insert_chunks concat].
  destruct (insert_with_retry_accepts max_retries retry_delay c st (Hacc _)) as [Ht Ha].
  destruct (IH (insert_with_retry db_fault max_retries retry_delay c st)) as [Ht' Ha'].
  cbv zeta. rewrite Ht', Ha', Ht, Ha, on_conflict_do_nothing_app. auto.
Qed.

(** C7.  Chunked insertion of records with pairwise different keys, of
    which exactly one ([dup]) has the key of a row of the table, into a
    store that accepts each statement within [max_retries] attempts:
    the call returns without an exception, the table gains the other
    records, that is one row fewer than there are records, and no chunk
    is given up. *)
Theorem chunked_insert_one_duplicate
    (l1 l2 : list tle_row) (dup : tle_row) (st : store)
    (chunk_size max_retries : nat) (retry_delay : Z) :
  (0 < chunk_size)%nat ->
  (forall n, exists j, (j < max_retries)%nat /\ db_fault (n + j) = false) ->
  NoDup (row_key <$> l1 ++ dup :: l2) ->
  row_key dup ∈ row_key <$> table st ->
  (forall r, r ∈ l1 ++ l2 -> row_key r ∉ row_key <$> table st) ->
  let records := l1 ++ dup :: l2 in
  let res := chunked_insert db_fault records chunk_size max_retries retry_delay st in
  res.1 = Ret tt /\
  table res.2 = table st ++ l1 ++ l2 /\
  length (table res.2) = (length (table st) + (length records - 1))%nat /\
  abandoned res.2 = abandoned st.
Proof.
  intros Hsize Hacc Hnd Hdup Hfresh records res.
  unfold res, chunked_insert. destruct chunk_size as [|n]; [lia|].
  cbn [fst snd].
  destruct (insert_chunks_accepts max_retries retry_delay
              (chunks (S n) records) st Hacc) as [Ht Ha].
  rewrite Ht, Ha, chunks_concat by lia.
  unfold records. rewrite on_conflict_do_nothing_one_duplicate by assumption.
  repeat split. rewrite !length_app. simpl. lia.
Qed.

End Store.

Import Fixtures.

(** Three records in chunks of two, the second a duplicate of the stored
    row, the first statement failing once: two rows are inserted. *)
Lemma chunked_insert_one_duplicate_witness :
  table (chunked_insert fault_once
           [row_of 25544 1; row_of 25544 2; row_of 25545 1] 2 3 5 store0).2
  = [row_of 25544 2; row_of 25544 1; row_of 25545 1].
Proof.
  refine (proj1 (proj2 (chunked_insert_one_duplicate fault_once
            [row_of 25544 1] [row_of 25545 1] (row_of 25544 2) store0 2 3 5
            _ _ _ _ _))).
  - lia.
  - intros [|n]; [exists 1%nat | exists 0%nat]; split; try lia.
    + reflexivity.
    + rewrite Nat.add_0_r. reflexivity.
  - apply (bool_decide_unpack _). vm_compute. exact I.
  - apply (bool_decide_unpack _). vm_compute. exact I.
  - intros r Hr. apply (bool_decide_unpack _).
    apply elem_of_cons in Hr as [->|Hr];
      [|apply list_elem_of_singleton in Hr as ->]; vm_compute; exact I.
Defined.

End StoreFacts.

(** ** The calendar and the epoch *)

Module DatetimeFacts.

Import PyDatetime data_input.
Local Open Scope Z_scope.

Lemma month_day_table (leapyear : bool) :
  forallb (month_day_ok leapyear) (seqZ 0 (if leapyear then 366 else 365)) = true.
Proof. destruct leapyear; vm_compute; reflexivity. Qed.

Lemma month_day_ok_range (leapyear : bool) (n : Z) :
  0 <= n < (if leapyear then 366 else 365) -> month_day_ok leapyear n = true.
Proof.
  intros Hn. pose proof (month_day_table leapyear) as H.
  rewrite forallb_forall in H. apply H. apply list_elem_of_In.
  apply elem_of_seqZ. destruct leapyear; lia.
Qed.

(** The year [n400 * 400 + n100 * 100 + n4 * 4 + n1 + 1], read off its
    position in the cycles of 400, 100 and 4 years. *)
Lemma is_leap_digits (n400 n100 n4 n1 : Z) :
  0 <= n100 <= 3 -> 0 <= n4 <= 24 -> 0 <= n1 <= 3 ->
  _is_leap (n400 * 400 + 1 + n100 * 100 + n4 * 4 + n1) =
  (n1 =? 3) && (negb (n4 =? 24) || (n100 =? 3)).
Proof.
  intros H100 H4 H1. unfold _is_leap.
  repeat match goal with |- context [?a =? ?b] => destruct (Z.eqb_spec a b) end;
    cbn; try reflexivity; exfalso; lia.
Qed.

Lemma days_before_year_digits (n400 n100 n4 n1 : Z) :
  0 <= n100 <= 3 -> 0 <= n4 <= 24 -> 0 <= n1 <= 3 ->
  _days_before_year (n400 * 400 + 1 + n100 * 100 + n4 * 4 + n1) =
  n400 * 146097 + n100 * 36524 + n4 * 1461 + n1 * 365.
Proof. intros H100 H4 H1. unfold _days_before_year. lia. Qed.

(** [_ymd2ord] undoes [_ord2ymd], at every day number. *)
Lemma ord2ymd_ymd2ord (n : Z) :
  let '(y, m, d) := _ord2ymd n in
  _ymd2ord y m d = n /\ 1 <= m <= 12 /\ 1 <= d <= 31.
Proof.
  unfold _ord2ymd, _DI400Y, _DI100Y, _DI4Y. cbv zeta.
  set (n400 := (n - 1) / 146097).
  set (r400 := (n - 1) mod 146097).
  set (n100 := r400 / 36524).
  set (r100 := r400 mod 36524).
  set (n4 := r100 / 1461).
  set (r4 := r100 mod 1461).
  set (n1 := r4 / 365).
  set (r1 := r4 mod 365).
  assert (Hn : n - 1 = n400 * 146097 + r400 /\ 0 <= r400 < 146097)
    by (unfold n400, r400; lia).
  assert (H100 : r400 = n100 * 36524 + r100 /\ 0 <= r100 < 36524)
    by (unfold n100, r100; lia).
  assert (H4 : r100 = n4 * 1461 + r4 /\ 0 <= r4 < 1461)
    by (unfold n4, r4; lia).
  assert (H1 : r4 = n1 * 365 + r1 /\ 0 <= r1 < 365)
    by (unfold n1, r1; lia).
  clearbody n400 r400 n100 r100 n4 r4 n1 r1.
  destruct ((n1 =? 4) || (n100 =? 4)) eqn:Hlast.
  - (* the last day of a leap year *)
    unfold _ymd2ord, _days_before_month.
    change (_DAYS_BEFORE_MONTH 12) with 334. change (2 <? 12) with true.
    cbn [andb].
    assert (Hy : exists a b c,
               0 <= a <= 3 /\ 0 <= b <= 24 /\ 0 <= c <= 3 /\
               n400 * 400 + 1 + n100 * 100 + n4 * 4 + n1 - 1 =
               n400 * 400 + 1 + a * 100 + b * 4 + c /\
               ((c =? 3) && (negb (b =? 24) || (a =? 3))) = true /\
               n400 * 146097 + a * 36524 + b * 1461 + c * 365 + 366 = n).
    { apply orb_true_iff in Hlast as [Hl|Hl]; apply Z.eqb_eq in Hl.
      - exists n100, n4, 3. repeat split; lia.
      - exists 3, 24, 3. repeat split; lia. }
    destruct Hy as (a & b & c & Ha & Hb & Hc & -> & Hleap & Hsum).
    rewrite is_leap_digits, days_before_year_digits, Hleap by assumption. lia.
  - apply orb_false_iff in Hlast as [Hl1 Hl100].
    apply Z.eqb_neq in Hl1, Hl100.
    assert (Hb100 : 0 <= n100 <= 3) by lia.
    assert (Hb4 : 0 <= n4 <= 24) by lia.
    assert (Hb1 : 0 <= n1 <= 3) by lia.
    set (leapyear := (n1 =? 3) && (negb (n4 =? 24) || (n100 =? 3))).
    pose proof (month_day_ok_range leapyear r1) as Hmd.
    unfold month_day_ok in Hmd. cbv zeta in Hmd.
    lapply Hmd; [clear Hmd; intros Hmd|destruct leapyear; lia].
    destruct (r1 <? _);
      unfold _ymd2ord, _days_before_month;
      rewrite is_leap_digits, days_before_year_digits by assumption;
      fold leapyear;
      repeat (apply andb_prop in Hmd as [Hmd ?]);
      repeat match goal with
             | H : (_ <=? _) = true |- _ => apply Z.leb_le in H
             | H : (_ =? _) = true |- _ => apply Z.eqb_eq in H
             end.
    all: lia.
Qed.

(** A [datetime] from [utcfromtimestamp] denotes the seconds and the
    microseconds of the split of the timestamp, and its fields are in
    range. *)
Lemma utcfromtimestamp_instant (t : float) (dt : datetime) :
  utcfromtimestamp t = Some dt ->
  exists secs us,
    timestamp_to_timeval t = Some (secs, us) /\
    unix_micros dt = secs * 1000000 + us /\
    0 <= microsecond dt < 1000000 /\
    (1 <= month dt <= 12 /\ 1 <= day dt <= 31) /\
    (0 <= hour dt < 24 /\ 0 <= minute dt < 60 /\ 0 <= second dt < 60).
Proof.
  unfold utcfromtimestamp.
  destruct (timestamp_to_timeval t) as [[secs us]|]; [|discriminate].
  cbv zeta. destruct (_ && _) eqn:Hrange; [|discriminate].
  apply andb_prop in Hrange as [Hrange Hus2]. apply andb_prop in Hrange as [_ Hus1].
  apply Z.leb_le in Hus1. apply Z.ltb_lt in Hus2.
  pose proof (ord2ymd_ymd2ord (EPOCH_ORDINAL + secs / 86400)) as Hord.
  destruct (_ord2ymd _) as [[y m] d]. destruct Hord as (Hord & Hm & Hd).
  intros [= <-]. exists secs, us. split; [reflexivity|].
  unfold unix_micros. cbn [year month day hour minute second microsecond].
  rewrite Hord. unfold EPOCH_ORDINAL. repeat split; lia.
Qed.

End DatetimeFacts.

(** ** The deriver *)

Module DeriverFacts.

Import PyStr PyDatetime data_input DatetimeFacts.
Local Open Scope list_scope.
Local Open Scope Z_scope.

Section Deriver.

Variable Satrec : Type.
Variable twoline2rv : string -> string -> option Satrec.
Variables jdsatepoch jdsatepochF : Satrec -> float.
Variable sgp4 : Satrec -> float -> float -> Z * (Q * Q * Q) * (Q * Q * Q).
Variable sqrt : Q -> Q.

Local Abbreviation parse_pair :=
  (data_input.parse_pair Satrec twoline2rv jdsatepoch jdsatepochF sgp4 sqrt).
Local Abbreviation parse_pairs :=
  (data_input.parse_pairs Satrec twoline2rv jdsatepoch jdsatepochF sgp4 sqrt).
Local Abbreviation parse_tle_file :=
  (data_input.parse_tle_file Satrec twoline2rv jdsatepoch jdsatepochF sgp4 sqrt).
Local Abbreviation propagator_error_code :=
  (data_input.propagator_error_code Satrec twoline2rv jdsatepoch jdsatepochF sgp4).

(** What a yielded row says about the pair it comes from. *)
Lemma parse_pair_row existing line1 line2 calls r :
  parse_pair existing line1 line2 = (calls, Some r) ->
  tle_line1 r = line1 /\ tle_line2 r = line2 /\
  exists sat, twoline2rv line1 line2 = Some sat /\
    calls = [(sat, jdsatepoch sat, jdsatepochF sat)] /\
    already_known existing (row_key r) = false /\
    let code := (sgp4 sat (jdsatepoch sat) (jdsatepochF sat)).1.1 in
    (code <> 0 -> Forall (fun f => f = None) (state_fields r)) /\
    (code = 0 -> Forall is_Some (state_fields r)).
Proof.
  unfold data_input.parse_pair.
  destruct (norad_id_of_line1 line1) as [id|]; [|discriminate].
  destruct (twoline2rv line1 line2) as [sat|]; [|discriminate].
  destruct (jday_to_datetime _ _) as [ep|]; [|discriminate].
  destruct (already_known _ _) eqn:Hk; [discriminate|].
  destruct (sgp4 sat _ _) as [[code [[px py] pz]] [[qx qy] qz]] eqn:Hs.
  destruct (Z.eqb_spec code 0) as [->|Hne]; cbn [negb]; intros [= <- <-];
    cbn [tle_line1 tle_line2]; (split; [reflexivity|]); (split; [reflexivity|]);
    exists sat; (split; [reflexivity|]); (split; [reflexivity|]);
    (split; [exact Hk|]); rewrite Hs; cbn [fst]; split; intros Hc;
    try congruence; unfold state_fields; cbn; repeat constructor; eauto.
Qed.

(** The epoch of a yielded row is the conversion of the epoch of its
    model. *)
Lemma parse_pair_epoch existing line1 line2 calls r :
  parse_pair existing line1 line2 = (calls, Some r) ->
  exists sat, twoline2rv line1 line2 = Some sat /\
    jday_to_datetime (jdsatepoch sat) (jdsatepochF sat) = Some (epoch r).
Proof.
  unfold data_input.parse_pair.
  destruct (norad_id_of_line1 line1) as [id|]; [|discriminate].
  destruct (twoline2rv line1 line2) as [sat|]; [|discriminate].
  destruct (jday_to_datetime _ _) as [ep|] eqn:Hep; [|discriminate].
  destruct (already_known _ _); [discriminate|].
  destruct (sgp4 sat _ _) as [[code [[px py] pz]] [[qx qy] qz]].
  destruct (negb _); intros [= <- <-]; exists sat; (split; [reflexivity|exact Hep]).
Qed.

(** C1, as the code has it.  For every pair that the deriver accepts, the
    epoch of the row is the UTC date and time of
    [(jd + fr - 2440587.5) * 86400] seconds after 1970-01-01T00:00:00Z,
    where [jd] and [fr] are the Julian epoch of the model of the pair and
    the three operations are those of binary64: the value is split into
    seconds and microseconds as [utcfromtimestamp] does, the epoch denotes
    that instant, and its fields are in range.  And a pair whose model has
    [jd = 2460310], [fr = 0.5] gets the epoch 2024-01-01T00:00:00Z. *)
Theorem row_epoch_is_binary64_formula :
  (forall existing line1 line2 calls r,
     parse_pair existing line1 line2 = (calls, Some r) ->
     exists sat secs us,
       twoline2rv line1 line2 = Some sat /\
       timestamp_to_timeval
         ((jdsatepoch sat + jdsatepochF sat - 2440587.5) * 86400)%float
       = Some (secs, us) /\
       unix_micros (epoch r) = secs * 1000000 + us /\
       0 <= microsecond (epoch r) < 1000000 /\
       (1 <= month (epoch r) <= 12 /\ 1 <= day (epoch r) <= 31) /\
       (0 <= hour (epoch r) < 24 /\ 0 <= minute (epoch r) < 60 /\
        0 <= second (epoch r) < 60)) /\
  (forall existing line1 line2 calls r sat,
     parse_pair existing line1 line2 = (calls, Some r) ->
     twoline2rv line1 line2 = Some sat ->
     jdsatepoch sat = 2460310%float ->
     jdsatepochF sat = 0.5%float ->
     epoch r = mk_datetime 2024 1 1 0 0 0 0).
Proof.
  split.
  - intros existing line1 line2 calls r Hpp.
    apply parse_pair_epoch in Hpp as (sat & Hsat & Hep).
    apply utcfromtimestamp_instant in Hep as (secs & us & Htv & Hrest).
    exists sat, secs, us. split; [exact Hsat|]. split; [exact Htv|]. exact Hrest.
  - intros existing line1 line2 calls r sat Hpp Hsat Hjd Hfr.
    apply parse_pair_epoch in Hpp as (sat' & Hsat' & Hep).
    rewrite Hsat in Hsat'. injection Hsat' as <-.
    rewrite Hjd, Hfr in Hep. vm_compute in Hep. by injection Hep.
Qed.

(** A pair without a row made no call of the propagator. *)
Lemma parse_pair_no_row existing line1 line2 calls :
  parse_pair existing line1 line2 = (calls, None) -> calls = [].
Proof.
  unfold data_input.parse_pair.
  destruct (norad_id_of_line1 line1) as [id|]; [|by intros [= <-]].
  destruct (twoline2rv line1 line2) as [sat|]; [|by intros [= <-]].
  destruct (jday_to_datetime _ _) as [ep|]; [|by intros [= <-]].
  destruct (already_known _ _); [by intros [= <-]|].
  destruct (sgp4 sat _ _) as [[code [[px py] pz]] [[qx qy] qz]].
  destruct (negb _); discriminate.
Qed.

Lemma parse_pairs_rows existing ps :
  (parse_pairs existing ps).2 =
  omap (fun p => (parse_pair existing (strip p.1) (strip p.2)).2) ps.
Proof.
  induction ps as [|[l1 l2] ps IH]; [reflexivity|].
  cbn [data_input.parse_pairs omap list_omap fst snd]. rewrite <- IH.
  destruct (parse_pair existing (strip l1) (strip l2)) as [calls row].
  destruct (parse_pairs existing ps) as [calls' rows].
  by destruct row.
Qed.

Lemma parse_pairs_calls existing ps :
  (parse_pairs existing ps).1 =
  concat (map (fun p => (parse_pair existing (strip p.1) (strip p.2)).1) ps).
Proof.
  induction ps as [|[l1 l2] ps IH]; [reflexivity|].
  cbn [data_input.parse_pairs map concat fst snd]. rewrite <- IH.
  destruct (parse_pair existing (strip l1) (strip l2)) as [calls row].
  by destruct (parse_pairs existing ps) as [calls' rows].
Qed.

(** C2.  In the rows a file yields: a row whose propagator error code is
    not zero has every derived state field null, a row whose code is zero
    has every one of them present; and a pair of the file whose id, model
    and epoch are found, which is not in the index and whose code is not
    zero, is among the rows yielded, with its id, epoch and lines. *)
Theorem state_fields_follow_error_code (content : string)
    (existing : option (gset (Z * datetime))) :
  let rows := (parse_tle_file content existing).2 in
  (forall r, r ∈ rows ->
     exists code, propagator_error_code r = Some code /\
       (code <> 0 -> Forall (fun f => f = None) (state_fields r)) /\
       (code = 0 -> Forall is_Some (state_fields r))) /\
  (forall l1 l2 id sat ep,
     (l1, l2) ∈ line_pairs (splitlines content) ->
     norad_id_of_line1 (strip l1) = Some id ->
     twoline2rv (strip l1) (strip l2) = Some sat ->
     jday_to_datetime (jdsatepoch sat) (jdsatepochF sat) = Some ep ->
     already_known existing (id, ep) = false ->
     (sgp4 sat (jdsatepoch sat) (jdsatepochF sat)).1.1 <> 0 ->
     exists r, r ∈ rows /\ norad_id r = id /\ epoch r = ep /\
       tle_line1 r = strip l1 /\ tle_line2 r = strip l2 /\
       Forall (fun f => f = None) (state_fields r)).
Proof.
  intros rows. unfold rows, data_input.parse_tle_file.
  rewrite parse_pairs_rows. split.
  - intros r Hr. apply list_elem_of_omap in Hr as ([l1 l2] & _ & Hp).
    cbn [fst snd] in Hp.
    destruct (parse_pair existing (strip l1) (strip l2)) as [calls row] eqn:Hpp.
    cbn [snd] in Hp. subst row.
    apply parse_pair_row in Hpp as (H1 & H2 & sat & Hsat & _ & _ & Hnz & Hz).
    exists (sgp4 sat (jdsatepoch sat) (jdsatepochF sat)).1.1.
    unfold data_input.propagator_error_code. rewrite H1, H2, Hsat. auto.
  - intros l1 l2 id sat ep Hin Hid Hsat Hep Hk Hcode.
    set (r := mk_tle_row id ep (strip l1) (strip l2)
                None None None None None None None None None).
    exists r. split.
    + apply list_elem_of_omap. exists (l1, l2). split; [exact Hin|].
      cbn [fst snd]. unfold data_input.parse_pair. rewrite Hid, Hsat, Hep, Hk.
      destruct (sgp4 sat _ _) as [[code pos] vel]. cbn [fst] in Hcode.
      destruct (Z.eqb_spec code 0); [contradiction|]. reflexivity.
    + repeat split. unfold state_fields. cbn. repeat constructor.
Qed.

(** C8.  A pair whose id and epoch are in the index: the body of the loop
    ends before the propagation, with no call of [sgp4] and no row. *)
Theorem known_pair_short_circuits (index : gset (Z * datetime))
    (line1 line2 : string) (id : Z) (sat : Satrec) (ep : datetime) :
  norad_id_of_line1 line1 = Some id ->
  twoline2rv line1 line2 = Some sat ->
  jday_to_datetime (jdsatepoch sat) (jdsatepochF sat) = Some ep ->
  (id, ep) ∈ index ->
  parse_pair (Some index) line1 line2 = ([], None).
Proof.
  intros Hid Hsat Hep Hin. unfold data_input.parse_pair.
  rewrite Hid, Hsat, Hep. unfold already_known.
  rewrite (bool_decide_true _ Hin), bool_decide_false; [reflexivity|].
  intros ->. by apply not_elem_of_empty in Hin.
Qed.

(** Over a whole file: the propagator is called once for each row yielded
    and for nothing else, and no row yielded is in the index. *)
Lemma parse_tle_file_propagates_new_pairs_only (content : string)
    (index : gset (Z * datetime)) :
  let res := parse_tle_file content (Some index) in
  length res.1 = length res.2 /\ Forall (fun r => row_key r ∉ index) res.2.
Proof.
  cbv zeta. unfold data_input.parse_tle_file.
  generalize (line_pairs (splitlines content)). intros ps.
  induction ps as [|[l1 l2] ps [IHl IHf]]; [split; [reflexivity|constructor]|].
  cbn [data_input.parse_pairs].
  destruct (parse_pair (Some index) (strip l1) (strip l2)) as [calls row] eqn:Hpp.
  destruct (parse_pairs (Some index) ps) as [calls' rows].
  cbn [fst snd] in *. destruct row as [r|].
  - apply parse_pair_row in Hpp as (_ & _ & sat & _ & -> & Hk & _).
    split; [cbn; by rewrite IHl|]. constructor; [|exact IHf].
    intros Hin. unfold already_known in Hk.
    rewrite (bool_decide_true _ Hin), bool_decide_false in Hk; [discriminate|].
    intros ->. by apply not_elem_of_empty in Hin.
  - apply parse_pair_no_row in Hpp as ->. by split.
Qed.

End Deriver.

Import Fixtures.

(** A file with a live and a decayed object: the row of the decayed one has
    an error code and a null state, and the decayed pair is yielded. *)
Lemma state_fields_follow_error_code_witness :
  (exists code,
     data_input.propagator_error_code toy_Satrec toy_twoline2rv toy_jdsatepoch
       toy_jdsatepochF toy_sgp4 row_decayed = Some code /\
     (code <> 0 -> Forall (fun f => f = None) (state_fields row_decayed)) /\
     (code = 0 -> Forall is_Some (state_fields row_decayed))) /\
  (exists r,
     r ∈ (data_input.parse_tle_file toy_Satrec toy_twoline2rv toy_jdsatepoch
            toy_jdsatepochF toy_sgp4 toy_sqrt tle_text_two None).2 /\
     norad_id r = 44235 /\ epoch r = epoch_2024_01_15 /\
     tle_line1 r = strip line1_decayed /\ tle_line2 r = strip line2_decayed /\
     Forall (fun f => f = None) (state_fields r)).
Proof.
  split.
  - refine (proj1 (state_fields_follow_error_code toy_Satrec toy_twoline2rv
              toy_jdsatepoch toy_jdsatepochF toy_sgp4 toy_sqrt tle_text_two None)
              row_decayed _).
    vm_compute. right. left.
  - refine (proj2 (state_fields_follow_error_code toy_Satrec toy_twoline2rv
              toy_jdsatepoch toy_jdsatepochF toy_sgp4 toy_sqrt tle_text_two None)
              line1_decayed line2_decayed 44235 (line1_decayed, line2_decayed)
              epoch_2024_01_15 _ _ _ _ _ _).
    + vm_compute. right. left.
    + reflexivity.
    + reflexivity.
    + vm_compute. reflexivity.
    + reflexivity.
    + vm_compute. discriminate.
Defined.

(** The pair of 25544 with a model of Julian epoch 2460310 + 0.5: the epoch
    of its row is 2024-01-01T00:00:00Z. *)
Lemma row_epoch_is_binary64_formula_witness :
  exists r,
    (data_input.parse_pair toy_Satrec toy_twoline2rv (epoch_at 2460310) (epoch_at 0.5)
       toy_sgp4 toy_sqrt None line1_iss line2_iss).2 = Some r /\
    epoch r = mk_datetime 2024 1 1 0 0 0 0.
Proof.
  destruct (data_input.parse_pair toy_Satrec toy_twoline2rv (epoch_at 2460310)
              (epoch_at 0.5) toy_sgp4 toy_sqrt None line1_iss line2_iss)
    as [calls [r|]] eqn:Hpp; [|vm_compute in Hpp; discriminate Hpp].
  exists r. split; [reflexivity|].
  exact (proj2 (row_epoch_is_binary64_formula toy_Satrec toy_twoline2rv
                  (epoch_at 2460310) (epoch_at 0.5) toy_sgp4 toy_sqrt)
           None line1_iss line2_iss calls r (line1_iss, line2_iss)
           Hpp eq_refl eq_refl eq_refl).
Defined.

(** C1 as stated fails twice.  At its own example: the row of a pair with
    [jd = 2460310], [fr = 0.5] has the epoch 2024-01-01T00:00:00Z, not
    2024-01-15T12:00:00Z.  And the conversion is not exact: with
    [jd = 2460324.5] and [fr = 0.000625] (the binary64 number next to it)
    the exact value of the formula is in the second 1705276854, that is
    00:00:54; its binary64 value is split into the second 1705276853 and
    999989 microseconds, and the row has the epoch 00:00:53.999989. *)
Lemma row_epoch_example_and_exactness_fail :
  let row jd fr :=
    (data_input.parse_pair toy_Satrec toy_twoline2rv (epoch_at jd) (epoch_at fr)
       toy_sgp4 toy_sqrt None line1_iss line2_iss).2 in
  let fr := 0x1.47ae147ae147bp-11%float in
  (epoch <$> row 2460310%float 0.5%float) = Some (mk_datetime 2024 1 1 0 0 0 0) /\
  (epoch <$> row 2460310%float 0.5%float) <> Some (mk_datetime 2024 1 15 12 0 0 0) /\
  float_value fr = Some (5764607523034235 # 9223372036854775808)%Q /\
  ((1 # 1600) <= 5764607523034235 # 9223372036854775808)%Q /\
  Qfloor (((24603245 # 10) + (5764607523034235 # 9223372036854775808)
           - (24405875 # 10)) * 86400)%Q = 1705276854 /\
  1705276854 = 19737 * 86400 + 54 /\
  timestamp_to_timeval ((2460324.5 + fr - 2440587.5) * 86400)%float
  = Some (1705276853, 999989) /\
  (epoch <$> row 2460324.5%float fr) = Some (mk_datetime 2024 1 15 0 0 53 999989).
Proof.
  cbv zeta. repeat split; try (vm_compute; reflexivity); vm_compute; discriminate.
Qed.

(** The element set of 25544 at an epoch that the index holds. *)
Lemma known_pair_short_circuits_witness :
  data_input.parse_pair toy_Satrec toy_twoline2rv toy_jdsatepoch toy_jdsatepochF
    toy_sgp4 toy_sqrt (Some {[ (25544, epoch_2024_01_15) ]}) line1_iss line2_iss
  = ([], None).
Proof.
  refine (known_pair_short_circuits toy_Satrec toy_twoline2rv toy_jdsatepoch
            toy_jdsatepochF toy_sgp4 toy_sqrt {[ (25544, epoch_2024_01_15) ]}
            line1_iss line2_iss 25544 (line1_iss, line2_iss) epoch_2024_01_15
            _ _ _ _).
  - reflexivity.
  - reflexivity.
  - vm_compute. reflexivity.
  - apply elem_of_singleton. reflexivity.
Defined.

End DeriverFacts.

(** ** The catalog number of line 1 *)

Module FormatFacts.

Import PyStr TLEFormat.
Local Open Scope string_scope.

Lemma isdigit_not_isspace (c : ascii) : isdigit c = true -> isspace c = false.
Proof. destruct c as [[] [] [] [] [] [] [] []]; vm_compute; congruence. Qed.

Lemma rstrip_cons_nonspace (c : ascii) (s : string) :
  isspace c = false -> rstrip (String c s) = String c (rstrip s).
Proof. intros Hc. cbn [rstrip]. rewrite Hc. by destruct (rstrip s). Qed.

Lemma rstrip_cons_follow (c d : ascii) (s : string) :
  isspace d = false -> rstrip (String c (String d s)) = String c (rstrip (String d s)).
Proof.
  intros Hd. rewrite (rstrip_cons_nonspace d s Hd).
  cbn [rstrip]. fold (rstrip s). rewrite Hd.
  by destruct (rstrip s).
Qed.

Lemma take_digits_rstrip_nondigit (s : string) :
  match String.get 0 s with Some c => negb (isdigit c) | None => true end = true ->
  data_input.take_digits (rstrip s) = EmptyString.
Proof.
  destruct s as [|c s]; [reflexivity|]. cbn [String.get]. intros Hc.
  apply negb_true_iff in Hc. cbn [rstrip].
  destruct (rstrip s); [destruct (isspace c)|]; cbn; rewrite ?Hc; reflexivity.
Qed.

(** C4, as the code has it.  On a line 1 whose catalog number is written
    with five decimal digits, the partitioner extracts the five characters
    of columns 3 to 7 and the deriver the number they spell: both agree
    with the fixed-range rule, and so with one another.  Neither rule of
    the code is a fixed range: the partitioner takes the first five
    characters of the second field, the deriver the digits after the first
    [1 ] that a digit follows. *)
Theorem id_extraction_agrees (line1 : string) :
  five_digit_line1 line1 = true ->
  TLE_Fetch.extract_norad_id line1 = Ret (spec_fixed_range_id line1) /\
  data_input.norad_id_of_line1 (strip line1)
  = Some (int_of_digits (spec_fixed_range_id line1)).
Proof.
  unfold five_digit_line1, spec_fixed_range_id, slice.
  destruct line1 as [|c0 [|c1 [|c2 [|c3 [|c4 [|c5 [|c6 rest]]]]]]];
    cbn [startswith String.substring String.length String.get all_digits andb Nat.eqb];
    rewrite ?andb_false_r; try discriminate.
  assert (Hsub : substring 0 0 rest = EmptyString) by (by destruct rest).
  rewrite Hsub. cbn [String.length Nat.eqb all_digits].
  destruct (Ascii.eqb_spec "1" c0) as [<-|]; [|discriminate].
  destruct (Ascii.eqb_spec " " c1) as [<-|]; [|discriminate].
  cbn [andb]. rewrite !andb_true_r.
  intros H. apply andb_prop in H as [H Hrest].
  apply andb_prop in H as [H2 H]. apply andb_prop in H as [H3 H].
  apply andb_prop in H as [H4 H]. apply andb_prop in H as [H5 H6].
  assert (Hs2 := isdigit_not_isspace _ H2).
  assert (Hs3 := isdigit_not_isspace _ H3).
  assert (Hs4 := isdigit_not_isspace _ H4).
  assert (Hs5 := isdigit_not_isspace _ H5).
  assert (Hs6 := isdigit_not_isspace _ H6).
  split.
  - unfold TLE_Fetch.extract_norad_id, split. cbn [split_go].
    destruct (split_go rest) as [cur toks].
    rewrite Hs2, Hs3, Hs4, Hs5, Hs6.
    change (isspace "1") with false. change (isspace " ") with true.
    cbn. reflexivity.
  - unfold strip.
    rewrite (rstrip_cons_nonspace "1") by reflexivity.
    rewrite (rstrip_cons_follow " " c2) by assumption.
    rewrite !rstrip_cons_nonspace by assumption.
    cbn [lstrip]. change (isspace "1") with false. cbv iota.
    unfold data_input.norad_id_of_line1. cbn [data_input.NORAD_REGEX_search].
    change (Ascii.eqb "1" "1") with true. cbv iota.
    cbn [data_input.take_digits]. rewrite H2, H3, H4, H5, H6.
    rewrite take_digits_rstrip_nondigit by assumption.
    reflexivity.
Qed.

Import Fixtures.

Lemma id_extraction_agrees_witness :
  TLE_Fetch.extract_norad_id line1_iss = Ret "25544" /\
  data_input.norad_id_of_line1 (strip line1_iss) = Some 25544%Z.
Proof. exact (id_extraction_agrees line1_iss eq_refl). Defined.

(** C4 as stated fails on a line 1 whose catalog number is padded with
    blanks.  The line starts with the marker of line 1, the test of
    validity of the partitioner; columns 3 to 7 hold the number 5; the
    partitioner extracts [5U], the number and the classification letter;
    the deriver finds no id. *)
Lemma id_extraction_blank_padded :
  startswith "1 " line1_blank_padded = true /\
  spec_fixed_range_id line1_blank_padded = "    5" /\
  TLE_Fetch.extract_norad_id line1_blank_padded = Ret "5U" /\
  data_input.norad_id_of_line1 (strip line1_blank_padded) = None.
Proof. repeat split. Qed.

(** A catalog number in the Alpha-5 notation is an id for the partitioner
    and none for the deriver. *)
Lemma id_extraction_alpha5 :
  five_digit_line1 line1_alpha5 = false /\
  TLE_Fetch.extract_norad_id line1_alpha5 = Ret "A0001" /\
  data_input.norad_id_of_line1 (strip line1_alpha5) = None.
Proof. repeat split. Qed.

End FormatFacts.

(** ** The session manager and the fetcher *)

Module FetcherFacts.

Import PyStr PyList PyListFacts TLE_Fetch.
Local Open Scope list_scope.
Local Open Scope Z_scope.

Lemma bind_Ret {A B} (m : M A) (k : A -> M B) st a st' :
  m st = (Ret a, st') -> bind m k st = k a st'.
Proof. intros H. unfold bind. by rewrite H. Qed.

Lemma bind_Exit {A B} (m : M A) (k : A -> M B) st c st' :
  m st = (Exit c, st') -> bind m k st = (Exit c, st').
Proof. intros H. unfold bind. by rewrite H. Qed.

Lemma bind_Raise {A B} (m : M A) (k : A -> M B) st e st' :
  m st = (Raise e, st') -> bind m k st = (Raise e, st').
Proof. intros H. unfold bind. by rewrite H. Qed.

Section Fetcher.

Variable server : nat -> request -> net_result.
Variables SPACETRACK_USER SPACETRACK_PASS : option string.
Variable jitter : nat -> Z.
Variable existing_dirs : gset string.

Local Abbreviation fetch_attempt :=
  (TLE_Fetch.fetch_attempt server SPACETRACK_USER SPACETRACK_PASS).
Local Abbreviation fetch_loop :=
  (TLE_Fetch.fetch_loop server SPACETRACK_USER SPACETRACK_PASS).
Local Abbreviation fetch_tle_data :=
  (TLE_Fetch.fetch_tle_data server SPACETRACK_USER SPACETRACK_PASS).
Local Abbreviation login := (TLE_Fetch.login server SPACETRACK_USER SPACETRACK_PASS).
Local Abbreviation login_request :=
  (TLE_Fetch.login_request SPACETRACK_USER SPACETRACK_PASS).
Local Abbreviation process_batch :=
  (TLE_Fetch.process_batch server SPACETRACK_USER SPACETRACK_PASS jitter existing_dirs).
Local Abbreviation batch_loop :=
  (TLE_Fetch.batch_loop server SPACETRACK_USER SPACETRACK_PASS jitter existing_dirs).
Local Abbreviation used_up := (TLE_Fetch.used_up server SPACETRACK_USER SPACETRACK_PASS).
Local Abbreviation exhausted :=
  (TLE_Fetch.exhausted server SPACETRACK_USER SPACETRACK_PASS).

Lemma session_request_responded st m url data timeout r :
  server (length (sent st)) (mk_request m url data timeout (cookies st)) = Responded r ->
  session_request server m url data timeout st
  = (Ret r, after_response (mk_request m url data timeout (cookies st)) r st).
Proof. intros H. unfold session_request. by rewrite H. Qed.

Lemma session_request_failed st m url data timeout e :
  server (length (sent st)) (mk_request m url data timeout (cookies st)) = Failed e ->
  session_request server m url data timeout st
  = (Raise e, mk_state (sent st ++ [mk_request m url data timeout (cookies st)])
                (slept st) (cookies st) (cookie_file st) (files st)).
Proof. intros H. unfold session_request. by rewrite H. Qed.

(** The three ways an attempt ends, seen from the loop. *)
Lemma fetch_loop_return tle_url attempt rest st v st' :
  fetch_attempt tle_url attempt st = (Ret (Some v), st') ->
  fetch_loop tle_url (attempt :: rest) st = (Ret v, st').
Proof. intros H. cbn [TLE_Fetch.fetch_loop]. unfold bind. by rewrite H. Qed.

Lemma fetch_loop_next tle_url attempt rest st st' :
  fetch_attempt tle_url attempt st = (Ret None, st') ->
  fetch_loop tle_url (attempt :: rest) st = fetch_loop tle_url rest st'.
Proof. intros H. cbn [TLE_Fetch.fetch_loop]. unfold bind. by rewrite H. Qed.

Lemma fetch_loop_exit tle_url attempt rest st c st' :
  fetch_attempt tle_url attempt st = (Exit c, st') ->
  fetch_loop tle_url (attempt :: rest) st = (Exit c, st').
Proof. intros H. cbn [TLE_Fetch.fetch_loop]. unfold bind. by rewrite H. Qed.

(** When the response to the request that opens an attempt is a throttle
    response, the process ends with status 1: that request is the last one
    sent, whatever attempts remain. *)
Lemma throttled_first_response_exits tle_url attempt rest st r :
  server (length (sent st)) (batch_request tle_url st) = Responded r ->
  is_throttled r = true ->
  fetch_loop tle_url (attempt :: rest) st
  = (Exit 1, after_response (batch_request tle_url st) r st).
Proof.
  intros Hr Ht. apply fetch_loop_exit.
  unfold TLE_Fetch.fetch_attempt, try_except, session_get.
  rewrite (bind_Ret _ _ _ _ _ (session_request_responded _ _ _ _ _ _ Hr)).
  by rewrite Ht.
Qed.

Lemma no_content_attempt_returns tle_url attempt st r :
  server (length (sent st)) (batch_request tle_url st) = Responded r ->
  is_throttled r = false ->
  is_no_content r = true ->
  fetch_attempt tle_url attempt st
  = (Ret (Some None), after_response (batch_request tle_url st) r st).
Proof.
  intros Hr Ht Hn. unfold TLE_Fetch.fetch_attempt, try_except, session_get.
  rewrite (bind_Ret _ _ _ _ _ (session_request_responded _ _ _ _ _ _ Hr)).
  by rewrite Ht, Hn.
Qed.


Lemma login_forced_accepted st r :
  server (length (sent st)) (login_request st) = Responded r ->
  status_code r = 200 ->
  login true st = (Ret tt, with_saved_cookies (after_response (login_request st) r st)).
Proof.
  intros Hr Hok. unfold TLE_Fetch.login.
  rewrite (bind_Ret _ _ st false st) by reflexivity.
  cbv iota. unfold session_post.
  rewrite (bind_Ret _ _ _ _ _ (session_request_responded _ _ _ _ _ _ Hr)).
  rewrite Hok. reflexivity.
Qed.

(** C5.  The response [r1] to the request that opens an attempt reaches the
    test of the session (it is neither a throttle response nor empty, the
    two tests that come first) and carries the session-expired signal; the
    forced login that follows is accepted ([r2]); the request made again
    succeeds ([r3]).  Then the fetcher returns the text of [r3] (stripped)
    in this same attempt, whatever attempts are left, having sent these
    three requests and no other - one login, the same request once more -
    and without sleeping. *)
Theorem session_expired_relogin_and_retry tle_url attempt rest st r1 r2 r3 :
  let q1 := batch_request tle_url st in
  let st1 := after_response q1 r1 st in
  let q2 := login_request st1 in
  let st2 := with_saved_cookies (after_response q2 r2 st1) in
  let q3 := retry_request tle_url st2 in
  let st3 := after_response q3 r3 st2 in
  server (length (sent st)) q1 = Responded r1 ->
  is_throttled r1 = false ->
  is_no_content r1 = false ->
  is_session_expired r1 = true ->
  server (length (sent st1)) q2 = Responded r2 ->
  status_code r2 = 200 ->
  server (length (sent st2)) q3 = Responded r3 ->
  is_success r3 = true ->
  fetch_loop tle_url (attempt :: rest) st = (Ret (Some (strip (text r3))), st3) /\
  sent st3 = sent st ++ [q1; q2; q3] /\
  slept st3 = slept st.
Proof.
  intros q1 st1 q2 st2 q3 st3 H1 Ht Hn He H2 Hok H3 Hs.
  split; [|split].
  - apply fetch_loop_return.
    unfold TLE_Fetch.fetch_attempt, try_except, session_get.
    rewrite (bind_Ret _ _ _ _ _ (session_request_responded _ _ _ _ _ _ H1)).
    rewrite Ht, Hn, He. cbv iota.
    erewrite (bind_Ret (bind _ _)); cycle 1.
    { erewrite bind_Ret; [|exact (login_forced_accepted _ _ H2 Hok)].
      unfold session_get. exact (session_request_responded _ _ _ _ _ _ H3). }
    rewrite Hs. reflexivity.
  - unfold st3, st2, st1, after_response, with_saved_cookies. cbn [sent].
    by rewrite <- !app_assoc.
  - reflexivity.
Qed.

(** An attempt that is used up gives no result to the loop. *)
Lemma used_up_attempt tle_url attempt st st' :
  used_up tle_url attempt st st' ->
  fetch_attempt tle_url attempt st = (Ret None, st') /\
  (1 <= length (sent st') - length (sent st) <= 3)%nat /\
  files st' = files st.
Proof.
  intros H. unfold TLE_Fetch.fetch_attempt, try_except, session_get.
  destruct H as [e q1 H1 He | r1 q1 H1 Ht Hn Hx Hs
                | r1 e q1 st1 q2 H1 Ht Hn Hx H2 He
                | r1 r2 e q1 st1 q2 st2 q3 H1 Ht Hn Hx H2 Hs2 H3 He
                | r1 r2 r3 q1 st1 q2 st2 q3 H1 Ht Hn Hx H2 Hs2 H3 Hs];
    repeat match goal with x := _ |- _ => subst x end.
  - rewrite (bind_Raise _ _ _ _ _ (session_request_failed _ _ _ _ _ _ H1)).
    split; [by destruct He as [-> | ->]|].
    cbn [backed_off after_failure sent files]. rewrite length_app. cbn. split; [lia|done].
  - rewrite (bind_Ret _ _ _ _ _ (session_request_responded _ _ _ _ _ _ H1)).
    rewrite Ht, Hn, Hx. cbv iota.
    rewrite (bind_Ret _ _ _ r1 _) by reflexivity. rewrite Hs.
    split; [reflexivity|].
    cbn [after_response sent files]. rewrite length_app. cbn. split; [lia|done].
  - rewrite (bind_Ret _ _ _ _ _ (session_request_responded _ _ _ _ _ _ H1)).
    rewrite Ht, Hn, Hx. cbv iota.
    erewrite bind_Raise; cycle 1.
    { erewrite bind_Raise; [reflexivity|]. unfold TLE_Fetch.login.
      erewrite bind_Ret by reflexivity. cbv iota. unfold session_post.
      erewrite bind_Raise; [reflexivity|]. by apply session_request_failed. }
    split; [by destruct He as [-> | ->]|].
    cbn [backed_off after_failure after_response sent files].
    rewrite !length_app. cbn. split; [lia|done].
  - rewrite (bind_Ret _ _ _ _ _ (session_request_responded _ _ _ _ _ _ H1)).
    rewrite Ht, Hn, Hx. cbv iota.
    erewrite bind_Raise; cycle 1.
    { erewrite bind_Ret; cycle 1.
      { by apply login_forced_accepted. }
      unfold session_get. by apply session_request_failed. }
    split; [by destruct He as [-> | ->]|].
    cbn [backed_off after_failure after_response with_saved_cookies sent files].
    rewrite !length_app. cbn. split; [lia|done].
  - rewrite (bind_Ret _ _ _ _ _ (session_request_responded _ _ _ _ _ _ H1)).
    rewrite Ht, Hn, Hx. cbv iota.
    erewrite bind_Ret; cycle 1.
    { erewrite bind_Ret; cycle 1.
      { by apply login_forced_accepted. }
      unfold session_get. by apply session_request_responded. }
    rewrite Hs. split; [reflexivity|].
    cbn [after_response with_saved_cookies sent files].
    rewrite !length_app. cbn. split; [lia|done].
Qed.

(** And an attempt gives no result in these ways only. *)
Lemma used_up_complete tle_url attempt st st' :
  fetch_attempt tle_url attempt st = (Ret None, st') ->
  used_up tle_url attempt st st'.
Proof.
  unfold TLE_Fetch.fetch_attempt, try_except, session_get, bind.
  destruct (server (length (sent st)) (batch_request tle_url st)) as [r1|e1] eqn:H1.
  - rewrite (session_request_responded _ _ _ _ _ _ H1).
    destruct (is_throttled r1) eqn:Ht; [discriminate|].
    destruct (is_no_content r1) eqn:Hn; [discriminate|].
    destruct (is_session_expired r1) eqn:Hx.
    + unfold TLE_Fetch.login, bind, ret, session_post.
      set (st1 := after_response (batch_request tle_url st) r1 st).
      change (after_response _ r1 st) with st1.
      destruct (server (length (sent st1)) (login_request st1)) as [r2|e2] eqn:H2.
      * rewrite (session_request_responded _ _ _ _ _ _ H2).
        destruct (status_code r2 =? 200) eqn:Hs2.
        -- apply Z.eqb_eq in Hs2. unfold save_cookies.
           set (st2 := with_saved_cookies (after_response (login_request st1) r2 st1)).
           change (mk_state _ _ _ _ _) with st2.
           destruct (server (length (sent st2)) (retry_request tle_url st2))
             as [r3|e3] eqn:H3.
           ++ rewrite (session_request_responded _ _ _ _ _ _ H3).
              destruct (is_success r3) eqn:Hs; [discriminate|].
              intros [= <-]. by eapply used_up_retry_response.
           ++ rewrite (session_request_failed _ _ _ _ _ _ H3).
              destruct e3; try discriminate; intros [= <-];
                eapply used_up_retry_fault; eauto; by (left + right).
        -- discriminate.
      * rewrite (session_request_failed _ _ _ _ _ _ H2).
        destruct e2; try discriminate; intros [= <-];
          eapply used_up_login_fault; eauto; by (left + right).
    + unfold ret. destruct (is_success r1) eqn:Hs; [discriminate|].
      intros [= <-]. by eapply used_up_response.
  - rewrite (session_request_failed _ _ _ _ _ _ H1).
    destruct e1; try discriminate; intros [= <-];
      eapply used_up_fault; eauto; by (left + right).
Qed.

(** When every attempt is used up, the loop ends with [None], after one
    to three requests for each attempt. *)
Lemma exhausted_loop tle_url attempts st st' :
  exhausted tle_url attempts st st' ->
  fetch_loop tle_url attempts st = (Ret None, st') /\
  (length attempts <= length (sent st') - length (sent st) <= 3 * length attempts)%nat /\
  (length (sent st) <= length (sent st'))%nat /\
  files st' = files st.
Proof.
  induction 1 as [st | a rest st st1 st' Hup Hex IH].
  - cbn. repeat split; lia.
  - destruct (used_up_attempt _ _ _ _ Hup) as (H1 & Hlen & Hfiles).
    destruct IH as (H' & Hlen' & Hle & Hfiles').
    rewrite (fetch_loop_next _ _ _ _ _ H1). split; [exact H'|].
    cbn [length]. split; [lia|]. split; [lia|congruence].
Qed.

(** The batch loop skips a batch for which the fetcher returned [None]. *)
Lemma process_batch_no_data active n batch st st' :
  fetch_tle_data batch 5 st = (Ret None, st') ->
  files st' = files st ->
  (process_batch active n batch st).1 = Ret tt /\
  files (process_batch active n batch st).2 = files st.
Proof.
  intros Hf Hfiles. unfold TLE_Fetch.process_batch.
  destruct (forallb _ batch); [done|].
  rewrite (bind_Ret _ _ _ _ _ Hf).
  rewrite (bind_Ret _ _ st' tt st') by reflexivity.
  cbn. done.
Qed.

(** C10.  For every batch, the fetcher returns the same value [None] in
    two cases.  When the service reports no content (the response to the
    request of an attempt has status 204 or a blank body, and is not a
    throttle response, which is tested before): then at once, after that
    one request.  And when all five attempts are used up, in whatever way
    each of them is: then after five to fifteen requests.  In both cases
    the iteration of the batch loop returns and no file is written. *)
Theorem empty_and_failed_batches_both_give_None
    (active : gset string) (n : nat) (batch : list string) (st : state) :
  let tle_url := TLE_HISTORY_URL_format (join "," batch) in
  (forall r,
     server (length (sent st)) (batch_request tle_url st) = Responded r ->
     is_throttled r = false ->
     is_no_content r = true ->
     fetch_tle_data batch 5 st
     = (Ret None, after_response (batch_request tle_url st) r st) /\
     (process_batch active n batch st).1 = Ret tt /\
     files (process_batch active n batch st).2 = files st) /\
  (forall st',
     exhausted tle_url (range 5) st st' ->
     fetch_tle_data batch 5 st = (Ret None, st') /\
     (5 <= length (sent st') - length (sent st) <= 15)%nat /\
     (process_batch active n batch st).1 = Ret tt /\
     files (process_batch active n batch st).2 = files st).
Proof.
  intros tle_url. split.
  - intros r Hr Ht Hn.
    assert (Hf : fetch_tle_data batch 5 st
                 = (Ret None, after_response (batch_request tle_url st) r st)).
    { unfold TLE_Fetch.fetch_tle_data. fold tle_url.
      apply fetch_loop_return, no_content_attempt_returns; assumption. }
    split; [exact Hf|]. exact (process_batch_no_data active n batch st _ Hf eq_refl).
  - intros st' Hex.
    destruct (exhausted_loop tle_url (range 5) st st' Hex) as (H' & Hlen & _ & Hfiles).
    split; [exact H'|]. split; [exact Hlen|].
    exact (process_batch_no_data active n batch st _ H' Hfiles).
Qed.

(** C9, as the code has it.  The request that opens an attempt is sent with
    [timeout=30]; the requests of the session manager (the probe of
    [check_session_valid] and the login) are sent without a timeout. *)
Theorem batch_request_has_timeout_session_requests_have_none :
  (forall tle_url attempt st,
     exists rest,
       sent (fetch_attempt tle_url attempt st).2
       = sent st ++ mk_request GET tle_url [] (Some 30) (cookies st) :: rest) /\
  (forall force st,
     exists added,
       sent (login force st).2 = sent st ++ added /\
       Forall (fun q => req_timeout q = None) added).
Proof.
  split.
  - intros tle_url attempt st.
    unfold TLE_Fetch.fetch_attempt, try_except, bind, session_get, TLE_Fetch.login,
      bind, ret, session_post, session_request, save_cookies, sys_exit, sleep.
    repeat first
      [ progress cbn [sent cookies snd fst]
      | match goal with
        | |- context [match server ?n ?q with _ => _ end] => destruct (server n q)
        | |- context [if ?b then _ else _] => destruct b
        | |- context [match ?e with ConnectionError => _ | _ => _ end] => destruct e
        end ];
      rewrite <- ?app_assoc; eexists; reflexivity.
  - intros force st.
    unfold TLE_Fetch.login, bind, ret, load_cookies, check_session_valid, bind, ret,
      session_get, session_post, session_request, save_cookies, sys_exit.
    repeat first
      [ progress cbn [sent cookies snd fst]
      | match goal with
        | |- context [match server ?n ?q with _ => _ end] => destruct (server n q)
        | |- context [match cookie_file ?s with _ => _ end] => destruct (cookie_file s)
        | |- context [if ?b then _ else _] => destruct b
        end ];
      rewrite <- ?app_assoc; eexists; (split; [reflexivity|]); repeat constructor.
Qed.

(** A batch whose files all exist is passed over: nothing is sent, nothing
    is written, and so for a whole list of ids. *)
Lemma batch_loop_all_materialized active n bs st :
  (forall b, b ∈ bs -> forallb (tle_file_exists (files st)) b = true) ->
  batch_loop active n bs st = (Ret tt, st).
Proof.
  revert n. induction bs as [|b bs IH]; intros n Hall; [reflexivity|].
  cbn [TLE_Fetch.batch_loop].
  rewrite (bind_Ret _ _ st tt st).
  - apply IH. intros b' Hb'. apply Hall. by right.
  - unfold TLE_Fetch.process_batch. rewrite Hall by left. reflexivity.
Qed.

End Fetcher.

End FetcherFacts.

(** ** The fetcher on concrete services *)

Module FetcherRuns.

Import PyStr TLE_Fetch FetcherFacts Fixtures.
Local Open Scope list_scope.
Local Open Scope Z_scope.

(** The session has expired at the first attempt of five: one login, the
    request made again, and its text returned with four attempts unused. *)
Lemma session_expired_relogin_and_retry_witness :
  (fetch_tle_data srv_session_expired user pass ["25544"%string] 5 st0).1
  = Ret (Some (strip tle_text)).
Proof.
  exact (f_equal fst
           (proj1 (session_expired_relogin_and_retry srv_session_expired user pass
                     url_25544 0 [1; 2; 3; 4] st0 expired_page login_ok tle_page
                     eq_refl eq_refl eq_refl eq_refl eq_refl eq_refl eq_refl eq_refl))).
Defined.

(** C6 fails on the response to the request made again after a login: that
    response has status 429 and the throttle marker, and the fetcher goes on
    to the next attempt, sends a fourth request and returns its text. *)
Theorem throttled_retry_response_is_not_fatal :
  let res := fetch_tle_data srv_throttled_retry user pass ["25544"%string] 5 st0 in
  (forall q, srv_throttled_retry 2 q = Responded throttle_page) /\
  status_code throttle_page = 429 /\
  is_throttled throttle_page = true /\
  res.1 = Ret (Some (strip tle_text)) /\
  length (sent res.2) = 4%nat /\
  (req_timeout <$> sent res.2 !! 2%nat) = Some None /\
  (req_url <$> sent res.2 !! 2%nat) = Some url_25544 /\
  (req_url <$> sent res.2 !! 3%nat) = Some url_25544 /\
  (req_timeout <$> sent res.2 !! 3%nat) = Some (Some 30).
Proof. cbv zeta. repeat split. Qed.

(** C9 as stated fails on the probe of the session manager, which is sent
    without a timeout, and on the request made again after a login. *)
Lemma session_probe_has_no_timeout :
  ~ Forall (fun q => req_timeout q = Some 30)
      (sent (login srv_data user pass false st0).2) /\
  ~ Forall (fun q => req_timeout q = Some 30)
      (sent (fetch_tle_data srv_session_expired user pass ["25544"%string] 5 st0).2).
Proof.
  split; intros H.
  - vm_compute in H. apply Forall_cons in H as [H _]. discriminate.
  - vm_compute in H. apply Forall_cons in H as [_ H].
    apply Forall_cons in H as [H _]. discriminate.
Qed.

(** An empty batch (status 204), and a batch whose five attempts are used
    up by a session that expires again after every login: [None] both
    times, after one request and after fifteen, and no file written. *)
Lemma empty_and_failed_batches_both_give_None_witness :
  (fetch_tle_data srv_204 user pass ["25544"%string] 5 st0).1 = Ret None /\
  length (sent (fetch_tle_data srv_204 user pass ["25544"%string] 5 st0).2) = 1%nat /\
  (fetch_tle_data srv_relogin_loop user pass ["25544"%string] 5 st0).1 = Ret None /\
  length (sent (fetch_tle_data srv_relogin_loop user pass ["25544"%string] 5 st0).2)
  = 15%nat /\
  files (process_batch srv_204 user pass no_jitter ∅ ∅ 0 ["25544"%string] st0).2 = ∅ /\
  files (process_batch srv_relogin_loop user pass no_jitter ∅ ∅ 0
           ["25544"%string] st0).2 = ∅.
Proof.
  destruct (proj1 (empty_and_failed_batches_both_give_None srv_204 user pass
                     no_jitter ∅ ∅ 0 ["25544"%string] st0)
              (mk_response 204 EmptyString ∅) eq_refl eq_refl eq_refl) as (Ha & _ & Hfa).
  assert (Hex : exists st',
             exhausted srv_relogin_loop user pass url_25544 (range 5) st0 st').
  { eexists.
    do 5 (eapply exhausted_cons;
          [eapply (used_up_retry_response _ _ _ _ _ _ expired_page login_ok expired_page);
           reflexivity|]).
    apply exhausted_nil. }
  destruct Hex as (st' & Hex).
  destruct (proj2 (empty_and_failed_batches_both_give_None srv_relogin_loop user pass
                     no_jitter ∅ ∅ 0 ["25544"%string] st0) st' Hex)
    as (Hb & _ & _ & Hfb).
  split; [exact (f_equal fst Ha)|].
  split; [rewrite Ha; reflexivity|].
  split; [exact (f_equal fst Hb)|].
  split; [reflexivity|].
  split; [exact Hfa | exact Hfb].
Defined.

End FetcherRuns.

(** ** The partitioner and the batch loop *)

Module PartitionerFacts.

Import PyStr PyList PyListFacts PyStrFacts TLE_Fetch FetcherFacts.
Local Open Scope list_scope.
Local Open Scope Z_scope.
Local Arguments String.append !_ _ / : simpl nomatch.

Lemma string_length_app (a b : string) :
  String.length (a +:+ b) = (String.length a + String.length b)%nat.
Proof. induction a as [|c a IH]; [reflexivity|]. cbn. by rewrite IH. Qed.

Lemma string_app_inj_r (s a b : string) : a +:+ s = b +:+ s -> a = b.
Proof.
  revert b. induction a as [|c a IH]; intros [|d b] H.
  - reflexivity.
  - apply (f_equal String.length) in H. cbn in H. rewrite string_length_app in H. lia.
  - apply (f_equal String.length) in H. cbn in H. rewrite string_length_app in H. lia.
  - cbn in H. injection H as -> H. f_equal. by apply IH.
Qed.

(** Two ids never share a file. *)
Lemma tle_filename_inj (active : gset string) : Inj (=) (=) (tle_filename active).
Proof.
  intros a b. unfold tle_filename.
  destruct (bool_decide (a ∈ active)), (bool_decide (b ∈ active));
    cbn; intros H; simplify_eq; by eapply string_app_inj_r.
Qed.

Lemma setdefault_append_keys k v d :
  (setdefault_append k v d).*1 = if bool_decide (k ∈ d.*1) then d.*1 else d.*1 ++ [k].
Proof.
  induction d as [|[k' vs] d IH]; [reflexivity|].
  cbn [setdefault_append fmap list_fmap fst].
  destruct (String.eqb_spec k k') as [->|Hne].
  - rewrite bool_decide_true by left. reflexivity.
  - cbn [fmap list_fmap fst]. rewrite IH.
    destruct (decide (k ∈ d.*1)) as [Hin|Hnin].
    + rewrite !bool_decide_true; [done| by right | done].
    + rewrite !bool_decide_false; [done| |done].
      intros Hc. apply elem_of_cons in Hc as [?|?]; done.
Qed.

Lemma setdefault_append_NoDup k v d : NoDup d.*1 -> NoDup (setdefault_append k v d).*1.
Proof.
  intros Hnd. rewrite setdefault_append_keys. case_bool_decide; [done|].
  apply NoDup_app. split; [done|]. split; [|apply NoDup_singleton].
  intros x Hx Hx'. apply list_elem_of_singleton in Hx'. by subst.
Qed.

(** The dict of the groups has one entry for each id. *)
Lemma group_pairs_NoDup ps d d' :
  group_pairs ps d = Ret d' -> NoDup d.*1 -> NoDup d'.*1.
Proof.
  revert d. induction ps as [|[l1 l2] ps IH]; intros d H Hnd.
  - cbn in H. by injection H as <-.
  - cbn [group_pairs] in H. destruct (_ || _); [by eapply IH|].
    destruct (extract_norad_id l1) as [id| |]; try discriminate.
    eapply IH; [exact H|]. by apply setdefault_append_NoDup.
Qed.

(** *** The groups of the first loop *)

Lemma dict_get_setdefault_append k v d id :
  dict_get id (setdefault_append k v d)
  = if String.eqb id k then dict_get id d ++ [v] else dict_get id d.
Proof.
  induction d as [|[k' vs] d IH].
  - cbn. by destruct (String.eqb id k).
  - cbn [setdefault_append]. destruct (String.eqb_spec k k') as [->|Hne].
    + cbn [dict_get]. by destruct (String.eqb id k').
    + cbn [dict_get]. rewrite IH.
      destruct (String.eqb_spec id k') as [->|Hne']; [|done].
      destruct (String.eqb_spec k' k) as [->|]; done.
Qed.

Lemma dict_get_elem_of d id content :
  NoDup d.*1 -> (id, content) ∈ d -> dict_get id d = content.
Proof.
  induction d as [|[k vs] d IH]; intros Hnd Hin; [by apply elem_of_nil in Hin|].
  cbn [fmap list_fmap fst] in Hnd. apply NoDup_cons in Hnd as [Hk Hnd].
  cbn [dict_get]. apply elem_of_cons in Hin as [[= -> ->]|Hin].
  - by rewrite String.eqb_refl.
  - destruct (String.eqb_spec id k) as [->|Hne]; [|by apply IH].
    exfalso. apply Hk. apply list_elem_of_fmap. by exists (k, content).
Qed.

Lemma dict_get_lookup d id : id ∈ d.*1 -> (id, dict_get id d) ∈ d.
Proof.
  induction d as [|[k vs] d IH]; intros Hin; [by apply elem_of_nil in Hin|].
  cbn [fmap list_fmap fst] in Hin. cbn [dict_get].
  destruct (String.eqb_spec id k) as [->|Hne]; [left|].
  right. apply IH. apply elem_of_cons in Hin as [?|?]; done.
Qed.

Lemma in_group_cons id p ps :
  pairs_of id (p :: ps) = if in_group id p then p :: pairs_of id ps else pairs_of id ps.
Proof. reflexivity. Qed.

(** What the first loop adds to the groups. *)
Lemma group_pairs_get ps d d' :
  group_pairs ps d = Ret d' ->
  forall id, dict_get id d' = dict_get id d ++ (entry <$> pairs_of id ps).
Proof.
  revert d. induction ps as [|[l1 l2] ps IH]; intros d Hg id.
  - cbn in Hg. injection Hg as <-. cbn. by rewrite app_nil_r.
  - cbn [group_pairs] in Hg. rewrite in_group_cons. unfold in_group, marked. cbn [fst snd].
    rewrite <- negb_andb in Hg.
    destruct (startswith "1 " l1 && startswith "2 " l2); cbn [negb andb] in *;
      [|by apply IH].
    destruct (extract_norad_id l1) as [nid|e|c]; try discriminate.
    rewrite (IH _ Hg), dict_get_setdefault_append.
    rewrite (String.eqb_sym nid id).
    destruct (String.eqb id nid); [|done].
    by rewrite fmap_cons, <- app_assoc.
Qed.

Lemma group_pairs_keys ps d d' :
  group_pairs ps d = Ret d' ->
  forall id, id ∈ d'.*1 <-> id ∈ d.*1 \/ pairs_of id ps <> [].
Proof.
  revert d. induction ps as [|[l1 l2] ps IH]; intros d Hg id.
  - cbn in Hg. injection Hg as <-. cbn. tauto.
  - cbn [group_pairs] in Hg. rewrite in_group_cons. unfold in_group, marked. cbn [fst snd].
    rewrite <- negb_andb in Hg.
    destruct (startswith "1 " l1 && startswith "2 " l2); cbn [negb andb] in *;
      [|by apply IH].
    destruct (extract_norad_id l1) as [nid|e|c]; try discriminate.
    rewrite (IH _ Hg), setdefault_append_keys.
    destruct (String.eqb_spec nid id) as [->|Hne].
    + case_bool_decide as Hin.
      * split; intros _; by left.
      * split; intros _; [by right|]. left. rewrite elem_of_app. right. left.
    + case_bool_decide as Hin; [done|].
      rewrite elem_of_app, list_elem_of_singleton.
      split; [intros [[?|?]|?]|intros [?|?]];
        first [by left | by right | congruence | by (left; left)].
Qed.

(** How the first loop ends. *)
Lemma group_pairs_outcome ps d :
  match group_pairs ps d with
  | Ret _ => Forall (fun p => marked p = true -> (2 <= length (split p.1))%nat) ps
  | Raise e =>
      e = IndexError /\
      Exists (fun p => marked p = true /\ (length (split p.1) < 2)%nat) ps
  | Exit _ => False
  end.
Proof.
  revert d. induction ps as [|[l1 l2] ps IH]; intros d; [cbn; constructor|].
  cbn [group_pairs]. rewrite <- negb_andb.
  destruct (startswith "1 " l1 && startswith "2 " l2) eqn:Hm; cbn [negb].
  - unfold extract_norad_id.
    destruct (split l1) as [|f0 [|f1 fs]] eqn:Hs.
    + split; [done|]. left. unfold marked. cbn [fst snd]. rewrite Hs. cbn. split; [done|lia].
    + split; [done|]. left. unfold marked. cbn [fst snd]. rewrite Hs. cbn. split; [done|lia].
    + specialize (IH (setdefault_append (prefix 5 f1) (l1 +:+ LF +:+ l2) d)).
      cbv beta iota.
      destruct (group_pairs ps _) as [d'|e|c]; cbv beta iota in IH |- *.
      * constructor; [|done]. cbn [fst]. rewrite Hs. cbn. lia.
      * destruct IH as [-> IH]. split; [done|by right].
      * done.
  - specialize (IH d).
    destruct (group_pairs ps d) as [d'|e|c]; cbv beta iota in IH |- *.
    + constructor; [|done]. unfold marked. cbn [fst snd]. rewrite Hm. discriminate.
    + destruct IH as [-> IH]. split; [done|by right].
    + done.
Qed.

(** The two paths that the batch loop tests for an id are paths of that id
    only. *)
Lemma id_path_is_tle_filename (active : gset string) (n id : string) (dir : string) :
  dir = ORBIT_DIR \/ dir = DEORBITED_DIR ->
  path_join dir ("tle_" +:+ n +:+ ".txt") = tle_filename active id -> id = n.
Proof.
  unfold tle_filename. intros [-> | ->];
    destruct (bool_decide (id ∈ active)); cbn; intros H; simplify_eq;
    symmetry; by eapply string_app_inj_r.
Qed.

(** *** The files of the second loop *)

Lemma open_w_outcome dirs path :
  match open_w dirs path with
  | Ret _ => open_w dirs path = Ret tt
  | Raise e => e = ValueError \/ e = OSError
  | Exit _ => False
  end.
Proof.
  unfold open_w. destruct (has_nul path); [by left|].
  case_bool_decide; [by right|].
  destruct (parent path); [|done]. case_bool_decide; [done|by right].
Qed.

Lemma save_groups_lookup_other active dirs d fs p :
  p ∉ tle_filename active <$> d.*1 ->
  (save_groups active dirs d fs).2 !! p = fs !! p.
Proof.
  revert fs. induction d as [|[id c] d IH]; intros fs Hp; [reflexivity|].
  cbn [save_groups]. cbn [fmap list_fmap fst] in Hp.
  apply not_elem_of_cons in Hp as [Hne Hp].
  destruct (open_w dirs (tle_filename active id)); [|reflexivity|reflexivity].
  rewrite IH by exact Hp. by rewrite lookup_insert_ne.
Qed.

Lemma save_groups_lookup active dirs d fs id content :
  (save_groups active dirs d fs).1 = Ret tt ->
  NoDup d.*1 -> (id, content) ∈ d ->
  (save_groups active dirs d fs).2 !! tle_filename active id
  = Some (join LF content +:+ LF)%string.
Proof.
  revert fs. induction d as [|[id' c'] d IH]; intros fs Hret Hnd Hin.
  - by apply elem_of_nil in Hin.
  - cbn [fmap list_fmap fst] in Hnd. apply NoDup_cons in Hnd as [Hid Hnd].
    cbn [save_groups] in *.
    destruct (open_w dirs (tle_filename active id')); [|discriminate|discriminate].
    apply elem_of_cons in Hin as [Heq|Hin].
    + injection Heq as <- <-. rewrite save_groups_lookup_other.
      * by rewrite lookup_insert_eq.
      * intros Hc. apply list_elem_of_fmap in Hc as (id2 & Hf & Hid2).
        apply tle_filename_inj in Hf. by subst.
    + by apply IH.
Qed.

(** The second loop returns when every file can be opened, and raises what
    [open] raises at the first file that cannot. *)
Lemma save_groups_outcome active dirs d fs :
  match (save_groups active dirs d fs).1 with
  | Ret _ => forall id, id ∈ d.*1 -> open_w dirs (tle_filename active id) = Ret tt
  | Raise e => exists id, id ∈ d.*1 /\ open_w dirs (tle_filename active id) = Raise e
  | Exit _ => False
  end.
Proof.
  revert fs. induction d as [|[id c] d IH]; intros fs.
  - cbn. intros id Hid. by apply elem_of_nil in Hid.
  - cbn [save_groups fmap list_fmap fst].
    pose proof (open_w_outcome dirs (tle_filename active id)) as Ho.
    destruct (open_w dirs (tle_filename active id)) as [u|e|c'] eqn:Hopen.
    + specialize (IH (<[tle_filename active id := (join LF c +:+ LF)%string]> fs)).
      destruct (save_groups active dirs d _).1 as [u'|e|c'].
      * intros id' Hid'. apply elem_of_cons in Hid' as [->|Hid'];
          [by destruct u|by apply IH].
      * destruct IH as (id' & Hid' & Hr). exists id'. split; [by right|exact Hr].
      * done.
    + cbn [fst]. exists id. split; [by left|exact Hopen].
    + done.
Qed.


(** *** The partitioner *)

(** The files after a partition that returns. *)
Lemma split_and_save_tle_files tle_data active dirs fs fs' :
  let ps := line_pairs (split_on "010"%char (strip tle_data)) in
  tle_data <> EmptyString ->
  split_and_save_tle tle_data active dirs fs = (Ret tt, fs') ->
  (forall id, pairs_of id ps <> [] ->
     fs' !! tle_filename active id
     = Some (join LF (entry <$> pairs_of id ps) +:+ LF)%string) /\
  (forall p, (forall id, pairs_of id ps <> [] -> p <> tle_filename active id) ->
     fs' !! p = fs !! p).
Proof.
  cbv zeta. intros Hne. unfold split_and_save_tle.
  apply String.eqb_neq in Hne. rewrite Hne.
  destruct (group_pairs _ []) as [d|e|c] eqn:Hg; try discriminate.
  intros Hsave.
  assert (H1 : (save_groups active dirs d fs).1 = Ret tt) by (by rewrite Hsave).
  assert (H2 : (save_groups active dirs d fs).2 = fs') by (by rewrite Hsave).
  pose proof (group_pairs_NoDup _ _ _ Hg (NoDup_nil_2)) as Hnd.
  split.
  - intros id Hsome.
    pose proof (group_pairs_get _ _ _ Hg id) as Hget. cbn [dict_get app] in Hget.
    assert (Hin : id ∈ d.*1)
      by (apply (group_pairs_keys _ _ _ Hg id); by right).
    apply dict_get_lookup in Hin. rewrite Hget in Hin.
    rewrite <- H2. by apply save_groups_lookup.
  - intros p Hp. rewrite <- H2. apply save_groups_lookup_other.
    intros Hin. apply list_elem_of_fmap in Hin as (id & -> & Hid).
    apply (group_pairs_keys _ _ _ Hg id) in Hid as [Hid|Hid];
      [by apply elem_of_nil in Hid|]. by apply (Hp id).
Qed.



Import Fixtures.
Local Open Scope list_scope.
Local Open Scope Z_scope.



End PartitionerFacts.

(** ** Invariants of the store *)

Module StoreInvariants.

Import PyList PyListFacts PyDatetime data_input StoreFacts.
Local Open Scope list_scope.

(** What a statement does to the table: it appends some of its rows, in
    their order. *)
Lemma on_conflict_do_nothing_appends (chunk t : list tle_row) :
  exists added, on_conflict_do_nothing chunk t = t ++ added /\ sublist added chunk.
Proof.
  revert t. induction chunk as [|r chunk IH]; intros t.
  - exists []. split; [by rewrite app_nil_r | constructor].
  - cbn [on_conflict_do_nothing]. case_bool_decide.
    + destruct (IH t) as (a & -> & Hs). exists a. split; [done|by constructor].
    + destruct (IH (t ++ [r])) as (a & -> & Hs). exists (r :: a).
      split; [by rewrite <- app_assoc | by constructor].
Qed.

Lemma on_conflict_do_nothing_NoDup (chunk t : list tle_row) :
  NoDup (row_key <$> t) -> NoDup (row_key <$> on_conflict_do_nothing chunk t).
Proof.
  revert t. induction chunk as [|r chunk IH]; intros t Hnd; [done|].
  cbn [on_conflict_do_nothing]. case_bool_decide as Hin; [by apply IH|].
  apply IH. rewrite fmap_app. apply NoDup_app. split; [done|].
  split; [|apply NoDup_singleton].
  intros k Hk Hk'. cbn in Hk'. apply list_elem_of_singleton in Hk'. by subst.
Qed.

Lemma on_conflict_do_nothing_covers (chunk t : list tle_row) (r : tle_row) :
  r ∈ chunk -> row_key r ∈ row_key <$> on_conflict_do_nothing chunk t.
Proof.
  revert t. induction chunk as [|r' chunk IH]; intros t Hr.
  - by apply elem_of_nil in Hr.
  - cbn [on_conflict_do_nothing]. apply elem_of_cons in Hr as [->|Hr].
    + assert (Hin : row_key r' ∈ row_key <$>
                      (if bool_decide (row_key r' ∈ row_key <$> t) then t else t ++ [r'])).
      { case_bool_decide; [done|]. rewrite fmap_app, elem_of_app. right. by left. }
      case_bool_decide.
      * destruct (on_conflict_do_nothing_appends chunk t) as (a & -> & _).
        rewrite fmap_app, elem_of_app. by left.
      * destruct (on_conflict_do_nothing_appends chunk (t ++ [r'])) as (a & -> & _).
        rewrite fmap_app, elem_of_app. by left.
    + case_bool_decide; by apply IH.
Qed.

Lemma on_conflict_do_nothing_known (chunk t : list tle_row) :
  (forall r, r ∈ chunk -> row_key r ∈ row_key <$> t) ->
  on_conflict_do_nothing chunk t = t.
Proof.
  induction chunk as [|r chunk IH]; intros Hall; [done|].
  cbn [on_conflict_do_nothing]. rewrite bool_decide_true by (apply Hall; left).
  apply IH. intros r' Hr'. apply Hall. by right.
Qed.

Section Store.

Variable db_fault : nat -> bool.

Lemma insert_with_retry_table (k : nat) (retry_delay : Z) (chunk : list tle_row) (st : store) :
  let st' := insert_with_retry db_fault k retry_delay chunk st in
  table st' = table st \/ table st' = on_conflict_do_nothing chunk (table st).
Proof.
  revert st. induction k as [|k IH]; intros st; [by left|].
  cbn [insert_with_retry]. destruct (db_fault (executed st)).
  - destruct (IH (mk_store (table st) (S (executed st))
                    (store_slept st ++ [retry_delay]) (abandoned st))) as [H|H];
      cbn [table] in H; [by left | by right].
  - by right.
Qed.

Lemma insert_chunks_appends (max_retries : nat) (retry_delay : Z)
    (cs : list (list tle_row)) (st : store) :
  exists added,
    table (insert_chunks db_fault max_retries retry_delay cs st) = table st ++ added /\
    sublist added (concat cs).
Proof.
  revert st. induction cs as [|c cs IH]; intros st.
  - exists []. split; [by rewrite app_nil_r | constructor].
  - cbn [insert_chunks concat].
    destruct (IH (insert_with_retry db_fault max_retries retry_delay c st))
      as (a2 & -> & Hs2).
    destruct (insert_with_retry_table max_retries retry_delay c st) as [->| ->].
    + exists a2. split; [done|]. by apply sublist_inserts_l.
    + destruct (on_conflict_do_nothing_appends c (table st)) as (a1 & -> & Hs1).
      exists (a1 ++ a2). split; [by rewrite <- app_assoc | by apply sublist_app].
Qed.

Lemma insert_chunks_NoDup (max_retries : nat) (retry_delay : Z)
    (cs : list (list tle_row)) (st : store) :
  NoDup (row_key <$> table st) ->
  NoDup (row_key <$> table (insert_chunks db_fault max_retries retry_delay cs st)).
Proof.
  revert st. induction cs as [|c cs IH]; intros st Hnd; [done|].
  cbn [insert_chunks]. apply IH.
  destruct (insert_with_retry_table max_retries retry_delay c st) as [->| ->];
    [done | by apply on_conflict_do_nothing_NoDup].
Qed.

(** X1.  Whatever the faults of the store, [chunked_insert] leaves the rows
    of the table where they are: the table after the call is the table
    before it followed by new rows, and the new rows are records of the
    call, in the order of the records. *)
Theorem chunked_insert_only_appends
    (records : list tle_row) (chunk_size max_retries : nat) (retry_delay : Z) (st : store) :
  exists added,
    table (chunked_insert db_fault records chunk_size max_retries retry_delay st).2
    = table st ++ added /\
    sublist added records.
Proof.
  unfold chunked_insert. destruct chunk_size as [|n].
  - exists []. cbn. split; [by rewrite app_nil_r | apply sublist_nil_l].
  - cbn [snd].
    destruct (insert_chunks_appends max_retries retry_delay (chunks (S n) records) st)
      as (a & Ha & Hs).
    exists a. split; [done|]. by rewrite chunks_concat in Hs by lia.
Qed.

(** X2.  If no two rows of the table have the same [(norad_id, epoch)]
    before [chunked_insert], none have after it, whatever the records, the
    chunk size and the faults of the store. *)
Theorem chunked_insert_keeps_keys_unique
    (records : list tle_row) (chunk_size max_retries : nat) (retry_delay : Z) (st : store) :
  NoDup (row_key <$> table st) ->
  NoDup (row_key <$>
           table (chunked_insert db_fault records chunk_size max_retries retry_delay st).2).
Proof.
  intros Hnd. unfold chunked_insert. destruct chunk_size as [|n]; [done|].
  cbn [snd]. by apply insert_chunks_NoDup.
Qed.

(** X3.  Into a store that accepts each statement within [max_retries]
    attempts, inserting the same records a second time changes nothing:
    after the first call the key of every record is in the table, and the
    second call leaves the table as it is. *)
Theorem chunked_insert_twice
    (records : list tle_row) (chunk_size max_retries : nat) (retry_delay : Z) (st : store) :
  (0 < chunk_size)%nat ->
  (forall n, exists j, (j < max_retries)%nat /\ db_fault (n + j) = false) ->
  let st1 := (chunked_insert db_fault records chunk_size max_retries retry_delay st).2 in
  let st2 := (chunked_insert db_fault records chunk_size max_retries retry_delay st1).2 in
  table st2 = table st1 /\
  (forall r, r ∈ records -> row_key r ∈ row_key <$> table st1).
Proof.
  intros Hsize Hacc st1 st2. unfold st2, st1, chunked_insert.
  destruct chunk_size as [|n]; [lia|]. cbn [snd].
  destruct (insert_chunks_accepts db_fault max_retries retry_delay
              (chunks (S n) records) st Hacc) as [Ht _].
  destruct (insert_chunks_accepts db_fault max_retries retry_delay
              (chunks (S n) records)
              (insert_chunks db_fault max_retries retry_delay (chunks (S n) records) st)
              Hacc) as [Ht2 _].
  rewrite Ht2, Ht, chunks_concat by lia. split.
  - apply on_conflict_do_nothing_known.
    intros r Hr. by apply on_conflict_do_nothing_covers.
  - intros r Hr. by apply on_conflict_do_nothing_covers.
Qed.

Lemma insert_with_retry_all_faults (k : nat) (retry_delay : Z)
    (chunk : list tle_row) (st : store) :
  (forall n, db_fault n = true) ->
  insert_with_retry db_fault k retry_delay chunk st
  = mk_store (table st) (executed st + k)
      (store_slept st ++ replicate k retry_delay) (abandoned st ++ [chunk]).
Proof.
  intros Hall. revert st. induction k as [|k IH]; intros st.
  - cbn. by rewrite Nat.add_0_r, app_nil_r.
  - cbn [insert_with_retry]. rewrite Hall, IH. cbn [table executed store_slept abandoned].
    f_equal; [lia|]. by rewrite <- app_assoc.
Qed.

(** X4.  With a store that fails at every statement, [chunked_insert]
    still returns without an exception: every chunk is tried [max_retries]
    times, with a sleep of [retry_delay] after each failure, then given
    up, and the table is unchanged. *)
Theorem chunked_insert_gives_up
    (records : list tle_row) (chunk_size max_retries : nat) (retry_delay : Z) (st : store) :
  (0 < chunk_size)%nat ->
  (forall n, db_fault n = true) ->
  let cs := chunks chunk_size records in
  chunked_insert db_fault records chunk_size max_retries retry_delay st
  = (Ret tt,
     mk_store (table st) (executed st + max_retries * length cs)
       (store_slept st ++ replicate (max_retries * length cs) retry_delay)
       (abandoned st ++ cs)).
Proof.
  intros Hsize Hall cs. unfold chunked_insert. destruct chunk_size as [|n]; [lia|].
  f_equal. fold cs. clearbody cs. revert st.
  induction cs as [|c cs IH]; intros st.
  - cbn. rewrite Nat.mul_0_r, Nat.add_0_r, !app_nil_r. by destruct st.
  - cbn [insert_chunks]. rewrite insert_with_retry_all_faults by done. rewrite IH.
    cbn [table executed store_slept abandoned length].
    f_equal; [lia| |by rewrite <- app_assoc].
    rewrite <- app_assoc, <- replicate_add. f_equal. f_equal. lia.
Qed.

Lemma insert_tle_file_to_db_appends
    (parsed_tles : list tle_row) (is_active_flag : bool) (st : store) :
  exists added,
    table (insert_tle_file_to_db db_fault parsed_tles is_active_flag st).2
    = table st ++ added /\
    sublist added (set_is_active is_active_flag <$> parsed_tles).
Proof.
  unfold insert_tle_file_to_db. destruct parsed_tles as [|p ps].
  - exists []. cbn. split; [by rewrite app_nil_r|constructor].
  - unfold chunked_insert. cbn [snd].
    destruct (insert_chunks_appends 3 5
                (chunks 100 (set_is_active is_active_flag <$> p :: ps)) st)
      as (a & Ha & Hs).
    rewrite chunks_concat in Hs by lia. by exists a.
Qed.

(** X5.  The rows that [insert_tle_file_to_db] adds to the table are rows
    of the file with the flag of its directory in [is_active], in the order
    of the file, whatever the faults of the store; the rows that were in
    the table keep their flag. *)
Theorem insert_tle_file_to_db_flags_rows
    (parsed_tles : list tle_row) (is_active_flag : bool) (st : store) :
  exists added,
    table (insert_tle_file_to_db db_fault parsed_tles is_active_flag st).2
    = table st ++ added /\
    sublist added (set_is_active is_active_flag <$> parsed_tles) /\
    Forall (fun r => is_active r = Some is_active_flag) added.
Proof.
  destruct (insert_tle_file_to_db_appends parsed_tles is_active_flag st)
    as (a & Ha & Hs).
  exists a. split; [done|]. split; [done|].
  apply Forall_forall. intros r Hr.
  eapply elem_of_sublist in Hr; [|exact Hs].
  apply list_elem_of_fmap in Hr as (r0 & -> & _). reflexivity.
Qed.

End Store.

Import Fixtures.
Local Open Scope list_scope.
Local Open Scope Z_scope.

(** Three records in chunks of two into a table with one row, the first
    statement failing once. *)
Lemma chunked_insert_keeps_keys_unique_witness :
  NoDup (row_key <$>
           table (chunked_insert fault_once
                    [row_of 25544 1; row_of 25544 2; row_of 25545 1] 2 3 5 store0).2).
Proof.
  apply (chunked_insert_keeps_keys_unique fault_once
           [row_of 25544 1; row_of 25544 2; row_of 25545 1] 2 3 5 store0).
  apply (bool_decide_unpack _). vm_compute. exact I.
Defined.

(** The same records inserted twice. *)
Lemma chunked_insert_twice_witness :
  let records := [row_of 25544 1; row_of 25544 2; row_of 25545 1] in
  let st1 := (chunked_insert fault_once records 2 3 5 store0).2 in
  let st2 := (chunked_insert fault_once records 2 3 5 st1).2 in
  table st2 = table st1 /\
  (forall r, r ∈ records -> row_key r ∈ row_key <$> table st1).
Proof.
  apply (chunked_insert_twice fault_once
           [row_of 25544 1; row_of 25544 2; row_of 25545 1] 2 3 5 store0).
  - lia.
  - intros [|n]; [exists 1%nat | exists 0%nat]; split; try lia.
    + reflexivity.
    + rewrite Nat.add_0_r. reflexivity.
Defined.

(** Three records in chunks of two, three attempts each: six statements,
    six sleeps of five seconds, both chunks given up. *)
Lemma chunked_insert_gives_up_witness :
  chunked_insert fault_always [row_of 25544 1; row_of 25545 1; row_of 25546 1] 2 3 5 store0
  = (Ret tt,
     mk_store [row_of 25544 2] 6 [5; 5; 5; 5; 5; 5]
       [[row_of 25544 1; row_of 25545 1]; [row_of 25546 1]]).
Proof.
  apply (chunked_insert_gives_up fault_always
           [row_of 25544 1; row_of 25545 1; row_of 25546 1] 2 3 5 store0).
  - lia.
  - reflexivity.
Defined.

End StoreInvariants.

(** ** Reading and ingesting a file *)

Module IngestFacts.

Import PyStr PyList PyListFacts PyDatetime data_input StoreFacts DatetimeFacts
  DeriverFacts StoreInvariants.
Local Open Scope list_scope.
Local Open Scope Z_scope.

(** *** Ids *)

Lemma take_digits_all_digits (s : string) : all_digits (take_digits s) = true.
Proof.
  induction s as [|c s IH]; [reflexivity|]. cbn [take_digits].
  destruct (isdigit c) eqn:Hc; [|reflexivity]. cbn [all_digits]. by rewrite Hc, IH.
Qed.

Lemma NORAD_REGEX_search_digits (s ds : string) :
  NORAD_REGEX_search s = Some ds ->
  all_digits ds = true /\ ds <> EmptyString /\ contains "1 " s = true.
Proof.
  induction s as [|c s IH]; [discriminate|].
  cbn [NORAD_REGEX_search contains startswith].
  destruct (Ascii.eqb_spec c "1") as [->|Hc].
  - change (Ascii.eqb "1" "1") with true. cbv iota.
    destruct s as [|d rest].
    + cbn. discriminate.
    + destruct (Ascii.eqb_spec d " ") as [->|Hd].
      * change (Ascii.eqb " " " ") with true. cbn [orb].
        destruct (take_digits rest) as [|e ds'] eqn:Htd.
        -- intros H. destruct (IH H) as (H1 & H2 & H3). auto.
        -- intros [= <-]. split; [|split; [discriminate|reflexivity]].
           rewrite <- Htd. apply take_digits_all_digits.
      * assert (Hnone : match String d rest with
                        | String " " rest0 =>
                            match take_digits rest0 with
                            | EmptyString => None
                            | ds0 => Some ds0
                            end
                        | _ => None
                        end = None).
        { destruct d as [[] [] [] [] [] [] [] []]; try reflexivity. congruence. }
        rewrite Hnone. intros H. destruct (IH H) as (H1 & H2 & H3).
        split; [done|]. split; [done|]. rewrite H3. apply orb_true_r.
  - destruct (Ascii.eqb c "1") eqn:E; [apply Ascii.eqb_eq in E; contradiction|].
    intros H. destruct (IH H) as (H1 & H2 & H3).
    split; [done|]. split; [done|]. rewrite H3. apply orb_true_r.
Qed.

Lemma digit_val_nonneg (c : ascii) : isdigit c = true -> 0 <= digit_val c <= 9.
Proof. unfold isdigit, digit_val. lia. Qed.

Lemma int_digits_from_nonneg (s : string) (acc : Z) :
  all_digits s = true -> 0 <= acc -> acc <= int_digits_from acc s.
Proof.
  revert acc. induction s as [|c s IH]; intros acc Hs Hacc; [cbn; lia|].
  cbn [all_digits] in Hs. apply andb_prop in Hs as [Hc Hs].
  cbn [int_digits_from]. pose proof (digit_val_nonneg c Hc).
  etransitivity; [|apply IH; [done|lia]]. lia.
Qed.

(** X8.  The id that the deriver reads from line 1 is never negative, and
    a line gives an id only if it holds a 1 followed by a space. *)
Theorem norad_id_of_line1_nonneg (line1 : string) (id : Z) :
  norad_id_of_line1 line1 = Some id ->
  0 <= id /\ contains "1 " line1 = true.
Proof.
  unfold norad_id_of_line1. intros H.
  destruct (NORAD_REGEX_search line1) as [ds|] eqn:Hs; [|discriminate].
  injection H as <-. destruct (NORAD_REGEX_search_digits _ _ Hs) as (Hd & _ & Hc).
  split; [|done]. by apply (int_digits_from_nonneg ds 0).
Qed.

(** *** Pairs of lines *)

Lemma line_pairs_length (l : list string) :
  (2 * length (TLE_Fetch.line_pairs l) <= length l)%nat.
Proof.
  assert (H : forall n (l : list string), (length l <= n)%nat ->
                (2 * length (TLE_Fetch.line_pairs l) <= length l)%nat).
  { clear l. induction n as [|n IH]; intros l Hl.
    - destruct l; [cbn; lia | cbn in Hl; lia].
    - destruct l as [|a [|b r]]; [cbn; lia | cbn; lia |].
      cbn [TLE_Fetch.line_pairs length] in *.
      specialize (IH r ltac:(lia)). lia. }
  by apply (H (length l)).
Qed.

Section Deriver.

Variable Satrec : Type.
Variable twoline2rv : string -> string -> option Satrec.
Variables jdsatepoch jdsatepochF : Satrec -> float.
Variable sgp4 : Satrec -> float -> float -> Z * (Q * Q * Q) * (Q * Q * Q).
Variable sqrt : Q -> Q.

Local Abbreviation parse_pair :=
  (data_input.parse_pair Satrec twoline2rv jdsatepoch jdsatepochF sgp4 sqrt).
Local Abbreviation parse_pairs :=
  (data_input.parse_pairs Satrec twoline2rv jdsatepoch jdsatepochF sgp4 sqrt).
Local Abbreviation parse_tle_file :=
  (data_input.parse_tle_file Satrec twoline2rv jdsatepoch jdsatepochF sgp4 sqrt).
Local Abbreviation pair_key :=
  (data_input.pair_key Satrec twoline2rv jdsatepoch jdsatepochF).

Lemma parse_pairs_sublist existing ps :
  let res := parse_pairs existing ps in
  sublist ((fun r => (tle_line1 r, tle_line2 r)) <$> res.2)
          ((fun p => (strip p.1, strip p.2)) <$> ps) /\
  length res.1 = length res.2.
Proof.
  cbv zeta. induction ps as [|[l1 l2] ps [IHs IHl]]; [split; [constructor|reflexivity]|].
  cbn [data_input.parse_pairs].
  destruct (parse_pair existing (strip l1) (strip l2)) as [calls row] eqn:Hpp.
  destruct (parse_pairs existing ps) as [calls' rows].
  cbn [fst snd] in *. destruct row as [r|].
  - apply parse_pair_row in Hpp as (H1 & H2 & sat & _ & -> & _).
    split; [|cbn; by rewrite IHl].
    rewrite !fmap_cons. cbn [fst snd]. rewrite H1, H2. by constructor.
  - apply parse_pair_no_row in Hpp as ->. split; [|done].
    rewrite fmap_cons. by constructor.
Qed.

(** X6.  Whatever the index, the rows that [parse_tle_file] yields store
    stripped line pairs of the file, in the order of the file and each
    pair at most once; the propagator is called exactly once for each row;
    and there are at most half as many rows as the file has lines. *)
Theorem parse_tle_file_rows_in_file_order (content : string)
    (existing : option (gset (Z * datetime))) :
  let res := parse_tle_file content existing in
  sublist ((fun r => (tle_line1 r, tle_line2 r)) <$> res.2)
          ((fun p => (strip p.1, strip p.2)) <$> line_pairs (splitlines content)) /\
  length res.1 = length res.2 /\
  (2 * length res.2 <= length (splitlines content))%nat.
Proof.
  cbv zeta. unfold data_input.parse_tle_file.
  destruct (parse_pairs_sublist existing (line_pairs (splitlines content))) as [Hs Hl].
  split; [exact Hs|]. split; [exact Hl|].
  apply sublist_length in Hs. rewrite !length_fmap in Hs.
  pose proof (line_pairs_length (splitlines content)). unfold line_pairs in *. lia.
Qed.

(** The body of the loop by the key of the pair. *)
Lemma parse_pair_by_key existing line1 line2 :
  match pair_key line1 line2 with
  | None => parse_pair existing line1 line2 = ([], None)
  | Some k =>
      if already_known existing k then parse_pair existing line1 line2 = ([], None)
      else exists calls r, parse_pair existing line1 line2 = (calls, Some r) /\ row_key r = k
  end.
Proof.
  unfold data_input.pair_key, data_input.parse_pair.
  destruct (norad_id_of_line1 line1) as [id|]; [|done].
  destruct (twoline2rv line1 line2) as [sat|]; [|done].
  destruct (jday_to_datetime _ _) as [ep|]; [|done].
  destruct (already_known _ _); [done|].
  destruct (sgp4 sat _ _) as [[code [[px py] pz]] [[qx qy] qz]].
  destruct (negb _); eexists _, _; (split; [reflexivity|reflexivity]).
Qed.

Lemma already_known_fetch (t : list tle_row) (k : Z * datetime) :
  already_known (Some (fetch_existing_tles t)) k = true <-> k ∈ row_key <$> t.
Proof.
  unfold already_known, fetch_existing_tles. rewrite andb_true_iff, negb_true_iff.
  rewrite bool_decide_eq_false, bool_decide_eq_true, elem_of_list_to_set.
  split; [by intros [_ H]|]. intros H. split; [|done].
  intros He. apply (not_elem_of_empty (C:=gset (Z * datetime)) k).
  rewrite <- He. by apply elem_of_list_to_set.
Qed.

Lemma already_known_elem_of existing k :
  already_known existing k = true -> k ∈ default (∅ : gset (Z * datetime)) existing.
Proof.
  destruct existing as [s|]; [|discriminate]. cbn.
  rewrite andb_true_iff, bool_decide_eq_true. by intros [_ H].
Qed.

Section Store.

Variable db_fault : nat -> bool.

(** X7.  A file that was ingested gives nothing to do when it is read
    again: after the rows of the file were inserted into a store that
    accepts each statement within three attempts, [parse_tle_file] with
    the index that [fetch_existing_tles] takes from the table yields no
    row and calls the propagator for no pair.  The first reading may use
    any index whose keys are in the table. *)
Theorem ingested_file_yields_nothing (content : string)
    (existing : option (gset (Z * datetime))) (is_active_flag : bool) (st : store) :
  (forall n, exists j, (j < 3)%nat /\ db_fault (n + j) = false) ->
  default ∅ existing ⊆ fetch_existing_tles (table st) ->
  let rows := (parse_tle_file content existing).2 in
  let st' := (insert_tle_file_to_db db_fault rows is_active_flag st).2 in
  parse_tle_file content (Some (fetch_existing_tles (table st'))) = ([], []).
Proof.
  intros Hacc Hsub rows st'.
  assert (Hold : forall k, k ∈ row_key <$> table st -> k ∈ row_key <$> table st').
  { intros k Hk. unfold st'.
    destruct (insert_tle_file_to_db_appends db_fault rows is_active_flag st)
      as (a & -> & _). rewrite fmap_app, elem_of_app. by left. }
  assert (Hnew : forall r, r ∈ rows -> row_key r ∈ row_key <$> table st').
  { intros r Hr. unfold st', insert_tle_file_to_db.
    destruct rows as [|r0 rs] eqn:Hrows; [by apply elem_of_nil in Hr|].
    unfold chunked_insert. cbn [snd].
    destruct (insert_chunks_accepts db_fault 3 5
                (chunks 100 (set_is_active is_active_flag <$> r0 :: rs)) st Hacc) as [-> _].
    rewrite chunks_concat by lia.
    change (row_key r) with (row_key (set_is_active is_active_flag r)).
    apply on_conflict_do_nothing_covers. apply list_elem_of_fmap. by exists r. }
  clearbody st'. unfold rows in Hnew. unfold data_input.parse_tle_file in *.
  revert Hnew. generalize (line_pairs (splitlines content)). intros ps.
  induction ps as [|[l1 l2] ps IH]; intros Hnew; [reflexivity|].
  cbn [data_input.parse_pairs] in *.
  pose proof (parse_pair_by_key existing (strip l1) (strip l2)) as H1.
  pose proof (parse_pair_by_key (Some (fetch_existing_tles (table st')))
                (strip l1) (strip l2)) as H2.
  destruct (pair_key (strip l1) (strip l2)) as [k|].
  - assert (Hk : already_known (Some (fetch_existing_tles (table st'))) k = true).
    { apply already_known_fetch.
      destruct (already_known existing k) eqn:Hex.
      - apply Hold. apply already_known_elem_of in Hex. apply Hsub in Hex.
        unfold fetch_existing_tles in Hex. by apply elem_of_list_to_set in Hex.
      - destruct H1 as (calls & r & Hpp & <-). apply Hnew. rewrite Hpp.
        destruct (parse_pairs existing ps). cbn. left. }
    rewrite Hk in H2. rewrite H2, IH; [reflexivity|].
    intros r Hr. apply Hnew.
    destruct (parse_pair existing (strip l1) (strip l2)) as [c [r'|]];
      destruct (parse_pairs existing ps); cbn in *; [by right|done].
  - rewrite H2, IH; [reflexivity|].
    intros r Hr. apply Hnew. rewrite H1.
    destruct (parse_pairs existing ps); by cbn in *.
Qed.

End Store.
End Deriver.

Import Fixtures.
Local Open Scope list_scope.
Local Open Scope Z_scope.

(** The file of two objects, ingested into the table of one row and read
    again. *)
Lemma ingested_file_yields_nothing_witness :
  let rows := (parse_tle_file toy_Satrec toy_twoline2rv toy_jdsatepoch toy_jdsatepochF
                 toy_sgp4 toy_sqrt tle_text_two None).2 in
  let st' := (insert_tle_file_to_db fault_once rows true store0).2 in
  parse_tle_file toy_Satrec toy_twoline2rv toy_jdsatepoch toy_jdsatepochF
    toy_sgp4 toy_sqrt tle_text_two (Some (fetch_existing_tles (table st')))
  = ([], []).
Proof.
  apply (ingested_file_yields_nothing toy_Satrec toy_twoline2rv toy_jdsatepoch
           toy_jdsatepochF toy_sgp4 toy_sqrt fault_once tle_text_two None true store0).
  - intros [|n]; [exists 1%nat | exists 0%nat]; split; try lia.
    + reflexivity.
    + rewrite Nat.add_0_r. reflexivity.
  - apply empty_subseteq.
Defined.

(** Line 1 of 25544. *)
Lemma norad_id_of_line1_nonneg_witness :
  0 <= 25544 /\ contains "1 " line1_iss = true.
Proof.
  apply (norad_id_of_line1_nonneg line1_iss 25544). reflexivity.
Defined.

End IngestFacts.

(** ** Effects of the fetcher and of the run *)

Module FetcherEffects.

Import PyStr PyList PyListFacts PyStrFacts TLE_Fetch FetcherFacts.
Local Open Scope list_scope.
Local Open Scope Z_scope.

Section Fetcher.

Variable server : nat -> request -> net_result.
Variables SPACETRACK_USER SPACETRACK_PASS : option string.
Variable jitter : nat -> Z.
Variable existing_dirs : gset string.

Local Abbreviation fetch_attempt :=
  (TLE_Fetch.fetch_attempt server SPACETRACK_USER SPACETRACK_PASS).
Local Abbreviation fetch_loop :=
  (TLE_Fetch.fetch_loop server SPACETRACK_USER SPACETRACK_PASS).
Local Abbreviation fetch_tle_data :=
  (TLE_Fetch.fetch_tle_data server SPACETRACK_USER SPACETRACK_PASS).
Local Abbreviation login := (TLE_Fetch.login server SPACETRACK_USER SPACETRACK_PASS).
Local Abbreviation login_request :=
  (TLE_Fetch.login_request SPACETRACK_USER SPACETRACK_PASS).
Local Abbreviation process_batch :=
  (TLE_Fetch.process_batch server SPACETRACK_USER SPACETRACK_PASS jitter existing_dirs).
Local Abbreviation batch_loop :=
  (TLE_Fetch.batch_loop server SPACETRACK_USER SPACETRACK_PASS jitter existing_dirs).
Local Abbreviation pipeline :=
  (TLE_Fetch.pipeline server SPACETRACK_USER SPACETRACK_PASS jitter existing_dirs).

(** One case of the code of an attempt or of a login: on the answer of the
    service, on a test, on the exception that is handled. *)
Ltac fetch_step :=
  match goal with
  | |- context [match server ?n ?q with _ => _ end] =>
      destruct (server n q) as [?r|?e] eqn:?
  | |- context [match cookie_file ?s with _ => _ end] =>
      destruct (cookie_file s) eqn:?
  | |- context [if ?b then _ else _] => destruct b eqn:?
  | |- context [match ?e with ConnectionError => _ | _ => _ end] => destruct e
  end; cbn [fst snd sent slept files cookies cookie_file].

Ltac fetch_kinds :=
  repeat (apply Forall_cons_2 || apply Forall_nil_2);
  first [left; by repeat split | right; by repeat split].

(** What one attempt does to the state. *)
Lemma fetch_attempt_effects tle_url attempt st :
  let res := fetch_attempt tle_url attempt st in
  exists added sl,
    sent res.2 = sent st ++ added /\
    (1 <= length added <= 3)%nat /\
    Forall (fetcher_request tle_url) added /\
    slept res.2 = slept st ++ sl /\
    (sl = [] \/ (sl = [5 + 2 * attempt] /\ res.1 = Ret None)) /\
    files res.2 = files st.
Proof.
  cbv zeta.
  unfold TLE_Fetch.fetch_attempt, try_except, bind, session_get, session_request,
    TLE_Fetch.login, session_post, session_request, save_cookies, sleep, sys_exit, ret, bind.
  repeat fetch_step.
  all: rewrite <- ?app_assoc; cbn [app].
  all: first
    [ eexists _, [];
      split; [reflexivity|]; split; [cbn; lia|]; split; [fetch_kinds|];
      split; [by rewrite app_nil_r|]; split; [by left | reflexivity]
    | eexists _, [_];
      split; [reflexivity|]; split; [cbn; lia|]; split; [fetch_kinds|];
      split; [reflexivity|]; split; [by right | reflexivity] ].
Qed.

Lemma fetch_loop_effects tle_url attempts st :
  let res := fetch_loop tle_url attempts st in
  exists added sl,
    sent res.2 = sent st ++ added /\
    (length added <= 3 * length attempts)%nat /\
    Forall (fetcher_request tle_url) added /\
    slept res.2 = slept st ++ sl /\
    sublist sl ((fun a => 5 + 2 * a) <$> attempts) /\
    files res.2 = files st.
Proof.
  cbv zeta. revert st. induction attempts as [|a rest IH]; intros st.
  - exists [], []. cbn. rewrite !app_nil_r. repeat split; constructor.
  - cbn [TLE_Fetch.fetch_loop]. unfold bind.
    destruct (fetch_attempt_effects tle_url a st)
      as (ad1 & sl1 & Hs1 & Hn1 & Hk1 & Hsl1 & Hb1 & Hf1).
    destruct (fetch_attempt tle_url a st) as [o st1]. cbn [fst snd] in *.
    destruct o as [[v|]|e|c].
    + exists ad1, sl1. cbn [fst snd ret length]. repeat split; try done; try lia.
      destruct Hb1 as [->|[_ ?]]; [apply sublist_nil_l|done].
    + destruct (IH st1) as (ad2 & sl2 & Hs2 & Hn2 & Hk2 & Hsl2 & Hb2 & Hf2).
      exists (ad1 ++ ad2), (sl1 ++ sl2).
      rewrite Hs2, Hs1, Hsl2, Hsl1, Hf2, Hf1, !app_assoc, length_app.
      cbn [length]. repeat split; try done; try lia.
      * by apply Forall_app.
      * rewrite fmap_cons. destruct Hb1 as [->|[-> _]]; cbn [app].
        -- by apply sublist_cons.
        -- by apply sublist_skip.
    + exists ad1, sl1. cbn [fst snd length]. repeat split; try done; try lia.
      destruct Hb1 as [->|[_ ?]]; [apply sublist_nil_l|done].
    + exists ad1, sl1. cbn [fst snd length]. repeat split; try done; try lia.
      destruct Hb1 as [->|[_ ?]]; [apply sublist_nil_l|done].
Qed.

(** X10.  Whatever the service answers, [fetch_tle_data] sends at most
    three requests for each attempt it is allowed, each of them the query
    of the batch or the login, and writes no file. *)
Theorem fetch_tle_data_requests_bounded
    (norad_list : list string) (retry_attempts : nat) (st : state) :
  let tle_url := TLE_HISTORY_URL_format (join "," norad_list) in
  let res := fetch_tle_data norad_list retry_attempts st in
  exists added,
    sent res.2 = sent st ++ added /\
    (length added <= 3 * retry_attempts)%nat /\
    Forall (fetcher_request tle_url) added /\
    files res.2 = files st.
Proof.
  cbv zeta. unfold TLE_Fetch.fetch_tle_data. destruct retry_attempts as [|k].
  - exists []. cbn. rewrite app_nil_r. repeat split; constructor.
  - destruct (fetch_loop_effects
                (TLE_HISTORY_URL_format (join "," norad_list)) (range (S k)) st)
      as (ad & sl & Hs & Hn & Hk & _ & _ & Hf).
    exists ad. unfold range in Hn. rewrite length_map, length_seq in Hn. done.
Qed.

(** X11.  The sleeps of [fetch_tle_data] follow the schedule
    [5 + 2 * attempt]: the sleeps of a call are some of the values 5, 7,
    9, ... of its attempts, in that order, each at most once. *)
Theorem fetch_tle_data_backoff
    (norad_list : list string) (retry_attempts : nat) (st : state) :
  let res := fetch_tle_data norad_list retry_attempts st in
  exists sl,
    slept res.2 = slept st ++ sl /\
    sublist sl ((fun a => 5 + 2 * a) <$> range retry_attempts).
Proof.
  cbv zeta. unfold TLE_Fetch.fetch_tle_data. destruct retry_attempts as [|k].
  - exists []. cbn. rewrite app_nil_r. split; constructor.
  - destruct (fetch_loop_effects
                (TLE_HISTORY_URL_format (join "," norad_list)) (range (S k)) st)
      as (ad & sl & _ & _ & _ & Hsl & Hsub & _).
    by exists sl.
Qed.

(** How an attempt ends when the service fails with exceptions of
    [requests] only. *)
Lemma fetch_attempt_outcome tle_url attempt st :
  (forall n q e, server n q = Failed e -> network_exn e = true) ->
  match (fetch_attempt tle_url attempt st).1 with
  | Ret (Some (Some d)) => d <> EmptyString /\ strip d = d
  | Ret _ => True
  | Raise _ => False
  | Exit c => c = 1
  end.
Proof.
  intros Hnet.
  unfold TLE_Fetch.fetch_attempt, try_except, bind, session_get, session_request,
    TLE_Fetch.login, session_post, session_request, save_cookies, sleep, sys_exit, ret, bind.
  repeat fetch_step.
  all: try done.
  all: try (match goal with
            | H : server _ _ = Failed _ |- _ => apply Hnet in H; discriminate H
            end).
  all: split; [|apply strip_idem];
    match goal with
    | H : is_success _ = true |- _ =>
        unfold is_success in H; apply andb_prop in H as [_ H];
        apply Nat.ltb_lt in H; intros He; rewrite He in H; cbn in H; lia
    end.
Qed.

Lemma fetch_loop_outcome tle_url attempts st :
  (forall n q e, server n q = Failed e -> network_exn e = true) ->
  match (fetch_loop tle_url attempts st).1 with
  | Ret (Some d) => d <> EmptyString /\ strip d = d
  | Ret None => True
  | Raise _ => False
  | Exit c => c = 1
  end.
Proof.
  intros Hnet. revert st. induction attempts as [|a rest IH]; intros st; [done|].
  cbn [TLE_Fetch.fetch_loop]. unfold bind.
  pose proof (fetch_attempt_outcome tle_url a st Hnet) as Ha.
  destruct (fetch_attempt tle_url a st) as [o st1]. cbn [fst] in Ha.
  destruct o as [[[d|]|]|e|c]; cbn [fst ret]; try done. apply IH.
Qed.

(** X12.  When the service fails with exceptions of [requests] only and
    at least one attempt is allowed, [fetch_tle_data] returns or ends the
    process with status 1, and raises nothing; a text it returns is not
    empty and has no white space at either end, so that the test
    [if tle_data:] of the batch loop tells a text from [None]. *)
Theorem fetch_tle_data_outcome
    (norad_list : list string) (retry_attempts : nat) (st : state) :
  (forall n q e, server n q = Failed e -> network_exn e = true) ->
  (0 < retry_attempts)%nat ->
  match (fetch_tle_data norad_list retry_attempts st).1 with
  | Ret (Some d) => d <> EmptyString /\ strip d = d
  | Ret None => True
  | Raise _ => False
  | Exit c => c = 1
  end.
Proof.
  intros Hnet Hk. unfold TLE_Fetch.fetch_tle_data.
  destruct retry_attempts as [|k]; [lia|]. by apply fetch_loop_outcome.
Qed.

(** X13.  [login] sleeps never and writes no file under [tle_data]; when
    it ends the process the status is 1; and it rewrites the cookie file
    only when it returns after a login that the service answered with
    status 200, the file then holding the cookies of the session. *)
Theorem login_rewrites_cookie_file_after_accepted_login (force : bool) (st : state) :
  let res := login force st in
  slept res.2 = slept st /\
  files res.2 = files st /\
  (forall c, res.1 = Exit c -> c = 1) /\
  (cookie_file res.2 = cookie_file st \/
   (res.1 = Ret tt /\ cookie_file res.2 = Some (cookies res.2) /\
    exists q r, last (sent res.2) = Some q /\ req_method q = POST /\
      server (length (sent res.2) - 1) q = Responded r /\ status_code r = 200)).
Proof.
  cbv zeta.
  unfold TLE_Fetch.login, check_session_valid, load_cookies, bind, session_get,
    session_post, session_request, save_cookies, sys_exit, ret, bind.
  repeat fetch_step.
  all: split; [reflexivity|]; split; [reflexivity|]; split; [by intros c [= <-]|].
  all: try (by left).
  all: right; split; [reflexivity|]; split; [reflexivity|].
  all: eexists _, _; rewrite last_snoc;
    split; [reflexivity|]; split; [reflexivity|].
  all: match goal with
       | H : server ?n ?q = Responded ?r, Hs : (status_code ?r =? 200) = true
         |- server ?m ?q = _ /\ _ =>
           split; [replace m with n by (rewrite ?length_app; cbn [length]; lia); exact H
                  | apply Z.eqb_eq; exact Hs]
       end.
Qed.

Lemma load_cookies_frame st :
  load_cookies st = (Ret tt, (load_cookies st).2) /\
  sent (load_cookies st).2 = sent st /\
  slept (load_cookies st).2 = slept st /\
  files (load_cookies st).2 = files st /\
  cookie_file (load_cookies st).2 = cookie_file st.
Proof.
  unfold load_cookies. destruct (cookie_file st) eqn:E; cbn; rewrite ?E; done.
Qed.

Lemma valid_session_skips_login st r :
  let st1 := (load_cookies st).2 in
  server (length (sent st)) (probe_request st1) = Responded r ->
  status_code r = 200 ->
  login false st = (Ret tt, after_response (probe_request st1) r st1).
Proof.
  cbv zeta. intros Hr Hs.
  unfold TLE_Fetch.login, check_session_valid, bind, session_get, ret.
  destruct (load_cookies_frame st) as (Hl & Hsent & _).
  rewrite Hl. unfold bind.
  rewrite (session_request_responded server (load_cookies st).2 GET test_url [] None r).
  - by rewrite Hs.
  - rewrite Hsent. exact Hr.
Qed.

(** X14.  A run that finds its session valid and the file of every id in
    place sends one request, the probe of the session, and nothing else:
    no login, no query, no sleep, no file written. *)
Theorem resumed_run_sends_probe_only
    (active : gset string) (norad_list : list string) (st : state) (r : response) :
  let st1 := (load_cookies st).2 in
  server (length (sent st)) (probe_request st1) = Responded r ->
  status_code r = 200 ->
  (forall norad, norad ∈ norad_list -> tle_file_exists (files st) norad = true) ->
  let res := pipeline active norad_list st in
  res.1 = Ret tt /\
  sent res.2 = sent st ++ [probe_request st1] /\
  slept res.2 = slept st /\
  files res.2 = files st /\
  cookie_file res.2 = cookie_file st.
Proof.
  cbv zeta. intros Hr Hs Hall. unfold TLE_Fetch.pipeline.
  erewrite bind_Ret; [|by apply valid_session_skips_login].
  rewrite (batch_loop_all_materialized server SPACETRACK_USER SPACETRACK_PASS jitter).
  - destruct (load_cookies_frame st) as (_ & Hsent & Hslept & Hfiles & Hcf).
    cbn [fst snd after_response sent slept files cookie_file].
    by rewrite Hsent, Hslept, Hfiles, Hcf.
  - intros b Hb. apply forallb_forall. intros norad Hn.
    cbn [after_response files].
    rewrite (proj1 (proj2 (proj2 (proj2 (load_cookies_frame st))))). apply Hall. apply list_elem_of_In in Hn.
    eapply (chunks_elem_of BATCH_SIZE); [unfold BATCH_SIZE; lia | exact Hb | exact Hn].
Qed.

(** X15.  A run whose saved session is refused and whose login is refused
    ends the process with status 1 after these two requests: no batch is
    queried, and no file and no cookie file is written. *)
Theorem rejected_login_stops_run
    (active : gset string) (norad_list : list string) (st : state) (r1 r2 : response) :
  let st1 := (load_cookies st).2 in
  let q1 := probe_request st1 in
  let st2 := after_response q1 r1 st1 in
  let q2 := login_request st2 in
  server (length (sent st)) q1 = Responded r1 ->
  status_code r1 <> 200 ->
  server (S (length (sent st))) q2 = Responded r2 ->
  status_code r2 <> 200 ->
  let res := pipeline active norad_list st in
  res.1 = Exit 1 /\
  sent res.2 = sent st ++ [q1; q2] /\
  files res.2 = files st /\
  cookie_file res.2 = cookie_file st.
Proof.
  cbv zeta. intros H1 Hs1 H2 Hs2.
  destruct (load_cookies_frame st) as (Hl & Hsent & _ & Hfiles & Hcf).
  apply Z.eqb_neq in Hs1, Hs2.
  unfold TLE_Fetch.pipeline. erewrite bind_Exit; cycle 1.
  { unfold TLE_Fetch.login. erewrite bind_Ret; cycle 1.
    { erewrite bind_Ret; [|exact Hl]. unfold check_session_valid, session_get.
      erewrite bind_Ret;
        [|apply session_request_responded; rewrite Hsent; exact H1].
      unfold ret. rewrite Hs1. reflexivity. }
    cbv iota. unfold session_post. erewrite bind_Ret; cycle 1.
    { apply session_request_responded.
      cbn [after_response sent cookies]. rewrite length_app, Hsent. cbn [length].
      rewrite Nat.add_1_r. exact H2. }
    rewrite Hs2. reflexivity. }
  cbn [fst snd after_response sent files cookie_file cookies].
  rewrite Hsent, Hfiles, Hcf, <- app_assoc. done.
Qed.


End Fetcher.

Import Fixtures.
Local Open Scope list_scope.
Local Open Scope Z_scope.

(** The service answers with the text of 25544. *)
Lemma fetch_tle_data_outcome_witness :
  match (fetch_tle_data srv_data user pass ["25544"%string] 5 st0).1 with
  | Ret (Some d) => d <> EmptyString /\ strip d = d
  | Ret None => True
  | Raise _ => False
  | Exit c => c = 1
  end.
Proof.
  apply (fetch_tle_data_outcome srv_data user pass ["25544"%string] 5 st0).
  - intros n q e. discriminate.
  - lia.
Defined.

(** Both files are in place and the service accepts the session. *)
Lemma resumed_run_sends_probe_only_witness :
  let res := pipeline srv_data user pass no_jitter ∅ ∅
               ["25544"%string; "25545"%string] st_all_files in
  res.1 = Ret tt /\
  sent res.2 = sent st_all_files ++ [probe_request (load_cookies st_all_files).2] /\
  slept res.2 = slept st_all_files /\
  files res.2 = files st_all_files /\
  cookie_file res.2 = cookie_file st_all_files.
Proof.
  apply (resumed_run_sends_probe_only srv_data user pass no_jitter ∅ ∅
           ["25544"%string; "25545"%string] st_all_files tle_page).
  - reflexivity.
  - reflexivity.
  - intros norad Hin.
    apply elem_of_cons in Hin as [->|Hin];
      [|apply list_elem_of_singleton in Hin as ->]; vm_compute; reflexivity.
Defined.

(** The service answers every request with status 401. *)
Lemma rejected_login_stops_run_witness :
  let st1 := (load_cookies st0).2 in
  let q1 := probe_request st1 in
  let q2 := login_request user pass (after_response q1 (mk_response 401 EmptyString ∅) st1) in
  let res := pipeline srv_401_blank user pass no_jitter ∅ ∅ ["25544"%string] st0 in
  res.1 = Exit 1 /\
  sent res.2 = sent st0 ++ [q1; q2] /\
  files res.2 = files st0 /\
  cookie_file res.2 = cookie_file st0.
Proof.
  apply (rejected_login_stops_run srv_401_blank user pass no_jitter ∅ ∅
           ["25544"%string] st0
           (mk_response 401 EmptyString ∅) (mk_response 401 EmptyString ∅)).
  - reflexivity.
  - discriminate.
  - reflexivity.
  - discriminate.
Defined.


End FetcherEffects.

(** ** Files of the partitioner *)

Module PartitionFiles.

Import PyStr PyList PyListFacts TLE_Fetch FetcherFacts PartitionerFacts.
Local Open Scope list_scope.
Local Open Scope Z_scope.
Local Arguments String.append !_ _ / : simpl nomatch.

(** X17.  How [split_and_save_tle] ends, in a file system with the
    directories [dirs].  It never ends the process.  It raises
    [IndexError] exactly when a pair that passes the test of the markers
    has a line 1 of fewer than two fields, and then it has written
    nothing.  Otherwise it returns when the file of every id of the text
    can be opened for writing, and raises the error of [open] when the
    file of one of them cannot: an [OSError] (a missing directory as
    [FileNotFoundError], a directory in the place of the file) or the
    [ValueError] of a path with a null character. *)
Theorem split_and_save_tle_outcome
    (tle_data : string) (active dirs : gset string) (fs : gmap string string) :
  let ps := line_pairs (split_on "010"%char (strip tle_data)) in
  let res := split_and_save_tle tle_data active dirs fs in
  match res.1 with
  | Ret _ =>
      tle_data = EmptyString \/
      (Forall (fun p => marked p = true -> (2 <= length (split p.1))%nat) ps /\
       forall id, pairs_of id ps <> [] ->
                  open_w dirs (tle_filename active id) = Ret tt)
  | Raise e =>
      tle_data <> EmptyString /\
      ((e = IndexError /\
        Exists (fun p => marked p = true /\ (length (split p.1) < 2)%nat) ps /\
        res.2 = fs) \/
       ((e = OSError \/ e = ValueError) /\
        Forall (fun p => marked p = true -> (2 <= length (split p.1))%nat) ps /\
        exists id, pairs_of id ps <> [] /\
                   open_w dirs (tle_filename active id) = Raise e))
  | Exit _ => False
  end.
Proof.
  cbv zeta. unfold split_and_save_tle.
  destruct (String.eqb_spec tle_data EmptyString) as [->|Hne]; [by left|].
  pose proof (group_pairs_outcome
                (line_pairs (split_on "010"%char (strip tle_data))) []) as Hout.
  destruct (group_pairs _ []) as [d|e|c] eqn:Hg.
  - pose proof (save_groups_outcome active dirs d fs) as Hs.
    assert (Hk : forall id, id ∈ d.*1 <->
              pairs_of id (line_pairs (split_on "010"%char (strip tle_data))) <> []).
    { intros id. rewrite (group_pairs_keys _ _ _ Hg id). cbn [fmap list_fmap].
      split; [intros [H|H]; [by apply elem_of_nil in H|done] | by right]. }
    destruct (save_groups active dirs d fs).1 as [u|e|c].
    + right. split; [exact Hout|]. intros id Hid. apply Hs. by apply Hk.
    + split; [exact Hne|]. right.
      destruct Hs as (id & Hid & Ho).
      pose proof (open_w_outcome dirs (tle_filename active id)) as Hw.
      rewrite Ho in Hw. split; [tauto|]. split; [exact Hout|].
      exists id. split; [by apply Hk | exact Ho].
    + done.
  - cbn [fst snd]. destruct Hout as [-> Hex]. split; [exact Hne|]. by left.
  - done.
Qed.

(** *** Reading a file back *)

Lemma string_app_assoc (a b c : string) : (a +:+ b) +:+ c = a +:+ (b +:+ c).
Proof. induction a as [|x a IH]; [reflexivity|]. cbn. by rewrite IH. Qed.

Lemma splitlines_line (l rest : string) :
  no_linebreak l = true ->
  splitlines (l +:+ LF +:+ rest) = l :: splitlines rest.
Proof.
  induction l as [|c l IH]; intros Hl.
  - cbn. by destruct rest.
  - cbn [no_linebreak] in Hl. apply andb_prop in Hl as [Hc Hl].
    apply negb_true_iff in Hc. cbn [String.append splitlines]. rewrite Hc.
    change (String.append l (String.append LF rest)) with (l +:+ LF +:+ rest).
    by rewrite (IH Hl).
Qed.

Lemma join_cons_LF (x : string) (r : list string) :
  join LF (x :: r) +:+ LF = x +:+ LF +:+ match r with [] => EmptyString | _ => join LF r +:+ LF end.
Proof.
  destruct r as [|y r]; [reflexivity|].
  cbn [join]. by rewrite !string_app_assoc.
Qed.

Lemma read_back (grp : list (string * string)) :
  Forall (fun p => no_linebreak p.1 && no_linebreak p.2 = true) grp ->
  data_input.line_pairs
    (splitlines (match grp with
                 | [] => EmptyString
                 | _ => join LF (entry <$> grp) +:+ LF
                 end)) = grp.
Proof.
  induction grp as [|[l1 l2] grp IH]; intros Hall; [reflexivity|].
  apply Forall_cons in Hall as [Hp Hall]. cbn [fst snd] in Hp.
  apply andb_prop in Hp as [H1 H2]. specialize (IH Hall).
  rewrite fmap_cons, join_cons_LF. unfold entry at 1. cbn [fst snd].
  rewrite !string_app_assoc, (splitlines_line l1 _ H1), (splitlines_line l2 _ H2).
  unfold data_input.line_pairs in *. cbn [line_pairs]. f_equal.
  destruct grp as [|q grp]; [reflexivity|]. exact IH.
Qed.

(** X18.  After a partition that returns, the file of an id without pair
    in the text is as it was, and the file of an id with pairs holds its
    pairs in the order of the text; read the way [parse_tle_file] reads
    it ([splitlines], two lines at a time), the file gives these pairs
    back, provided their lines hold no other line boundary. *)
Theorem partitioned_file_reads_back
    (tle_data : string) (active dirs : gset string) (fs fs' : gmap string string)
    (norad_id : string) :
  let ps := line_pairs (split_on "010"%char (strip tle_data)) in
  tle_data <> EmptyString ->
  split_and_save_tle tle_data active dirs fs = (Ret tt, fs') ->
  (pairs_of norad_id ps = [] ->
   fs' !! tle_filename active norad_id = fs !! tle_filename active norad_id) /\
  (pairs_of norad_id ps <> [] ->
   exists content,
     fs' !! tle_filename active norad_id = Some content /\
     content = (join LF (entry <$> pairs_of norad_id ps) +:+ LF)%string /\
     (Forall (fun p => no_linebreak p.1 && no_linebreak p.2 = true)
        (pairs_of norad_id ps) ->
      data_input.line_pairs (splitlines content) = pairs_of norad_id ps)).
Proof.
  cbv zeta. intros Hne Hsp.
  destruct (split_and_save_tle_files tle_data active dirs fs fs' Hne Hsp)
    as [Hwritten Hother].
  split.
  - intros Hnone. apply Hother. intros id Hid Heq.
    apply tle_filename_inj in Heq as <-. done.
  - intros Hsome. eexists. split; [by apply Hwritten|].
    split; [reflexivity|]. intros Hall.
    pose proof (read_back _ Hall) as Hrb.
    destruct (pairs_of norad_id _) as [|p grp]; [done|]. exact Hrb.
Qed.

(** X19.  After a partition that returns, the existence test of the batch
    loop holds for an id exactly when it held before or the text has a
    pair that the partitioner puts under this id. *)
Theorem partition_marks_exactly_its_groups
    (tle_data : string) (active dirs : gset string) (fs fs' : gmap string string)
    (norad : string) :
  let ps := line_pairs (split_on "010"%char (strip tle_data)) in
  tle_data <> EmptyString ->
  split_and_save_tle tle_data active dirs fs = (Ret tt, fs') ->
  tle_file_exists fs' norad
  = tle_file_exists fs norad || negb (forallb (fun p => negb (in_group norad p)) ps).
Proof.
  cbv zeta. intros Hne Hsp.
  destruct (split_and_save_tle_files tle_data active dirs fs fs' Hne Hsp)
    as [Hwritten Hother].
  set (ps := line_pairs (split_on "010"%char (strip tle_data))) in *.
  destruct (forallb (fun p => negb (in_group norad p)) ps) eqn:Hall; cbn [negb].
  - rewrite orb_false_r.
    assert (Hnone : pairs_of norad ps = []).
    { unfold pairs_of. clear -Hall.
      induction ps as [|p ps IH]; [reflexivity|].
      cbn [forallb] in Hall. apply andb_prop in Hall as [Hp Hall].
      apply negb_true_iff in Hp. cbn [List.filter]. rewrite Hp. by apply IH. }
    unfold tle_file_exists.
    rewrite !Hother; [reflexivity| |].
    + intros id Hid Heq.
      apply id_path_is_tle_filename in Heq as ->; [done|by right].
    + intros id Hid Heq.
      apply id_path_is_tle_filename in Heq as ->; [done|by left].
  - rewrite orb_true_r.
    assert (Hsome : pairs_of norad ps <> []).
    { unfold pairs_of. clear -Hall.
      induction ps as [|p ps IH]; [discriminate|].
      cbn [forallb] in Hall. cbn [List.filter].
      destruct (in_group norad p); [discriminate|]. by apply IH. }
    pose proof (Hwritten norad Hsome) as Hl.
    unfold tle_file_exists. unfold tle_filename in Hl.
    destruct (bool_decide (norad ∈ active)); cbn [negb] in Hl; rewrite Hl.
    + rewrite bool_decide_true by eauto. reflexivity.
    + rewrite (bool_decide_true (is_Some (Some _))) by eauto. apply orb_true_r.
Qed.

(** *** Batches *)

Lemma chunks_fuel_lengths {A} (size : nat) :
  (0 < size)%nat ->
  forall (fuel : nat) (l : list A),
  Forall (fun c => (1 <= length c <= size)%nat) (chunks_fuel fuel size l).
Proof.
  intros Hsize fuel. induction fuel as [|f IH]; intros l; [constructor|].
  destruct l as [|a l]; [constructor|]. cbn [chunks_fuel]. constructor; [|apply IH].
  rewrite length_take. cbn [length]. lia.
Qed.

(** X20.  The batches of the run, one after the other, are the list of ids:
    every id is in one batch, and a batch holds between 1 and 15 ids. *)
Theorem batches_partition_the_ids (norad_list : list string) :
  concat (batches norad_list) = norad_list /\
  Forall (fun b => (1 <= length b <= 15)%nat) (batches norad_list).
Proof.
  unfold batches, BATCH_SIZE. split.
  - apply chunks_concat. lia.
  - apply (chunks_fuel_lengths 15). lia.
Qed.

Import Fixtures.
Local Open Scope list_scope.
Local Open Scope Z_scope.

(** The text of 25544, whose object is in orbit, in a fresh working
    directory: the run has made [TLE_DIR] and [DEORBITED_DIR], nothing has
    made [ORBIT_DIR], and [open] raises. *)
Lemma split_and_save_tle_outcome_witness :
  (split_and_save_tle tle_text {[ "25544"%string ]} (run_dirs ∅) ∅).1 = Raise OSError /\
  (exists id, pairs_of id [(line1_iss, line2_iss)] <> [] /\
     open_w (run_dirs ∅) (tle_filename {[ "25544"%string ]} id) = Raise OSError).
Proof.
  pose proof (split_and_save_tle_outcome tle_text {[ "25544"%string ]} (run_dirs ∅) ∅)
    as H.
  cbv zeta in H.
  assert (Hr : (split_and_save_tle tle_text {[ "25544"%string ]} (run_dirs ∅) ∅).1
               = Raise OSError) by (vm_compute; reflexivity).
  rewrite Hr in H. split; [reflexivity|].
  destruct H as [_ [(He & _)|(_ & _ & Hid)]]; [discriminate|exact Hid].
Defined.

(** The text of 25544, partitioned into an empty directory. *)
Lemma partitioned_file_reads_back_witness :
  exists content,
    fs_25544 !! tle_filename ∅ "25544" = Some content /\
    content = (join LF (entry <$> [(line1_iss, line2_iss)]) +:+ LF)%string /\
    (Forall (fun p => no_linebreak p.1 && no_linebreak p.2 = true)
       [(line1_iss, line2_iss)] ->
     data_input.line_pairs (splitlines content) = [(line1_iss, line2_iss)]).
Proof.
  apply (proj2 (partitioned_file_reads_back tle_text ∅ (run_dirs ∅) ∅ fs_25544 "25544"
                  ltac:(discriminate) ltac:(vm_compute; reflexivity))).
  vm_compute. discriminate.
Defined.

(** After that partition the file of 25544 exists and that of 25545 does
    not. *)
Lemma partition_marks_exactly_its_groups_witness :
  tle_file_exists fs_25544 "25545" = false /\
  tle_file_exists fs_25544 "25544" = true.
Proof.
  split.
  - etransitivity.
    + apply (partition_marks_exactly_its_groups tle_text ∅ (run_dirs ∅) ∅ fs_25544 "25545").
      * discriminate.
      * vm_compute. reflexivity.
    + vm_compute. reflexivity.
  - etransitivity.
    + apply (partition_marks_exactly_its_groups tle_text ∅ (run_dirs ∅) ∅ fs_25544 "25544").
      * discriminate.
      * vm_compute. reflexivity.
    + vm_compute. reflexivity.
Defined.

End PartitionFiles.
